(** * kquiz: a Telegram vocabulary trainer over a bbolt store

    Shallow embedding of the two Go packages of the repository:
    - package [telegram] (the [BotHandler] over the two bbolt buckets), and
    - package [main] (the senders and the update loop with its
      [currRandomWord] map).

    Go strings are byte strings and are embedded as [string]; [int64] chat
    identities as [Z] (no arithmetic is ever done on them); the two buckets and
    the [map[int64]string] as [gmap]. *)

From Stdlib Require Import ZArith Ascii.
From stdpp Require Import base option list sorting strings pretty gmap fin_maps.

Local Open Scope Z_scope.

(** ** Package strings (the functions the program calls) *)

Module strings.

(** [len(s)] *)
Definition len (s : string) : Z := Z.of_nat (String.length s).

(** [strings.HasPrefix(s, prefix)] *)
Fixpoint HasPrefix (s prefix : string) {struct prefix} : bool :=
  match prefix, s with
  | EmptyString, _ => true
  | String _ _, EmptyString => false
  | String p prefix', String c s' =>
      if decide (c = p) then HasPrefix s' prefix' else false
  end.

(** Position of the first occurrence of [substr] in [s], if there is one. *)
Fixpoint find (s substr : string) : option nat :=
  if HasPrefix s substr then Some 0%nat
  else match s with
       | EmptyString => None
       | String _ s' => S <$> find s' substr
       end.

(** [strings.Index(s, substr)]: the byte index of the first occurrence, or
    [-1]. *)
Definition Index (s substr : string) : Z :=
  match find s substr with
  | Some i => Z.of_nat i
  | None => -1
  end.

(** The bytes of [s] before position [n] and from position [n] on; the
    slice expressions [s[:n]] and [s[n:]] are built from them below. *)
Fixpoint take (n : nat) (s : string) : string :=
  match n, s with
  | S n', String c s' => String c (take n' s')
  | _, _ => EmptyString
  end.

Fixpoint drop (n : nat) (s : string) : string :=
  match n, s with
  | S n', String _ s' => drop n' s'
  | _, _ => s
  end.

(** [strings.SplitN(s, sep, n)] for a non-empty separator: at most [n]
    pieces, the last one being the unsplit remainder; [n = 0] gives the nil
    slice and a negative [n] means no limit. *)
Fixpoint genSplit (s sep : string) (n : nat) : list string :=
  match n with
  | O => []
  | S O => [s]
  | S n' =>
      match find s sep with
      | None => [s]
      | Some i => take i s :: genSplit (drop (i + String.length sep) s) sep n'
      end
  end.

Definition SplitN (s sep : string) (n : Z) : list string :=
  if decide (n < 0) then genSplit s sep (S (String.length s))
  else genSplit s sep (Z.to_nat n).

(** [strings.ReplaceAll(s, old, new)] for a non-empty [old]: the
    non-overlapping occurrences of [old] are replaced from left to right.
    [skip] counts the bytes of the current occurrence still to be dropped. *)
Fixpoint replaceFrom (old new : string) (skip : nat) (s : string) : string :=
  match s with
  | EmptyString => EmptyString
  | String c s' =>
      match skip with
      | S k => replaceFrom old new k s'
      | O =>
          if HasPrefix s old
          then new +:+ replaceFrom old new (String.length old - 1) s'
          else String c (replaceFrom old new 0 s')
      end
  end.

(** For an empty [old] Go inserts [new] around every rune; the program only
    calls it with the empty [new], where that leaves [s] as it is. *)
Definition ReplaceAll (s old new : string) : string :=
  match old with
  | EmptyString =>
      (fix ins (t : string) : string :=
         match t with
         | EmptyString => new
         | String c t' => new +:+ String c (ins t')
         end) s
  | String _ _ => replaceFrom old new 0 s
  end.

End strings.

(** ** The process state and its effects *)

(** A Go call either returns or panics (index out of range, [rand.Intn] on a
    non-positive bound); a panic in the update goroutine ends the process. *)
Inductive outcome (A : Type) : Type :=
  | Done (a : A)
  | Panic (reason : string).
Arguments Done {A} a.
Arguments Panic {A} reason.

(** [tgbotapi.NewMessage(chatID, text)] *)
Record MessageConfig := NewMessage { ChatID : Z; Text : string }.

(** What the update loop reads and writes: the two buckets of [kquiz.db], the
    [currRandomWord] map of [main], what went out through [botAPI.Send] and
    through [log], and the environment's coming answers: the result of each
    write commit of the store, of each [Send], and each raw draw of the
    random generator. A script that has run out answers with success (and
    with the draw 0). *)
Record World := mkWorld {
  telegram : gmap string string;
  kquiz : gmap string string;
  currRandomWord : gmap Z string;
  sends : list MessageConfig;
  logs : list string;
  commitErrs : list (option string);
  sendErrs : list (option string);
  draws : list Z
}.

Definition M (A : Type) : Type := World → outcome (A * World).

Definition ret {A} (a : A) : M A := λ w, Done (a, w).
Definition bind {A B} (m : M A) (f : A → M B) : M B := λ w,
  match m w with
  | Done (a, w') => f a w'
  | Panic r => Panic r
  end.

Notation "'do' x <- m ; k" := (bind m (λ x, k))
  (at level 10, x binder, m at level 100, k at level 200).
Notation "'run' m ; k" := (bind m (λ _, k))
  (at level 10, m at level 100, k at level 200).

Definition panic {A} (reason : string) : M A := λ _, Panic reason.

(** The state after a line went to the log, after a message went out, and
    after the generator was drawn from. *)
Definition logged (line : string) (w : World) : World :=
  mkWorld (telegram w) (kquiz w) (currRandomWord w) (sends w)
    (logs w ++ [line]) (commitErrs w) (sendErrs w) (draws w).

Definition delivered (msg : MessageConfig) (w : World) : World :=
  mkWorld (telegram w) (kquiz w) (currRandomWord w) (sends w ++ [msg])
    (logs w) (commitErrs w) (tail (sendErrs w)) (draws w).

Definition drawn (w : World) : World :=
  mkWorld (telegram w) (kquiz w) (currRandomWord w) (sends w)
    (logs w) (commitErrs w) (sendErrs w) (tail (draws w)).

(** [log.Printf]: one line appended to the log (the logger ends every line
    itself, so a trailing newline of the format is not kept). *)
Definition Printf (line : string) : M unit := λ w, Done ((), logged line w).

(** [botAPI.Send(msg)]: the message goes out; the transport says whether it
    failed. Only the error of the result is ever looked at. *)
Definition Send (msg : MessageConfig) : M (option string) := λ w,
  Done (mjoin (head (sendErrs w)), delivered msg w).

(** [rand.Seed(time.Now().UnixNano()); rand.Intn(n)]: panics unless [n > 0],
    else some value of [[0, n)], here the raw draw reduced modulo [n]. *)
Definition Intn (n : Z) : M Z := λ w,
  if decide (n <= 0) then Panic "invalid argument to Intn"
  else Done (default 0 (head (draws w)) `mod` n, drawn w).

(** [l[i]] *)
Definition index {A} (l : list A) (i : Z) : M A :=
  if decide (0 <= i) then
    match l !! Z.to_nat i with
    | Some x => ret x
    | None => panic "index out of range"
    end
  else panic "index out of range".

(** [s[i:]] and [s[:j]] *)
Definition sliceFrom (s : string) (i : Z) : M string :=
  if decide (0 <= i <= strings.len s) then ret (strings.drop (Z.to_nat i) s)
  else panic "slice bounds out of range".

Definition sliceTo (s : string) (j : Z) : M string :=
  if decide (0 <= j <= strings.len s) then ret (strings.take (Z.to_nat j) s)
  else panic "slice bounds out of range".

(** [currRandomWord[chatID]], [currRandomWord[chatID] = v] and
    [delete(currRandomWord, chatID)] *)
Definition lookupRandomWord (chatID : Z) : M (option string) := λ w,
  Done (currRandomWord w !! chatID, w).

Definition storeRandomWord (chatID : Z) (v : string) : M unit := λ w,
  Done ((), mkWorld (telegram w) (kquiz w) (<[chatID := v]> (currRandomWord w))
              (sends w) (logs w) (commitErrs w) (sendErrs w) (draws w)).

Definition deleteRandomWord (chatID : Z) : M unit := λ w,
  Done ((), mkWorld (telegram w) (kquiz w) (delete chatID (currRandomWord w))
              (sends w) (logs w) (commitErrs w) (sendErrs w) (draws w)).

(** ** The bbolt store, by its contract *)

(** The errors that travel through the program: the five of package
    [telegram] and the store's own. *)
Inductive error :=
  | ErrAlreadyRegistered
  | ErrNotRegistered
  | ErrDatabaseError
  | ErrDuplicateWord
  | ErrWordNotFound
  | ErrKeyRequired
  | ErrKeyTooLarge
  | ErrValueTooLarge
  | ErrCommit (msg : string).

Global Instance error_eq_dec : EqDecision error.
Proof. solve_decision. Defined.

(** [err.Error()], what [%s] prints. *)
Definition Error (e : error) : string :=
  match e with
  | ErrAlreadyRegistered => "already registered"
  | ErrNotRegistered => "not yet registered"
  | ErrDatabaseError => "database error"
  | ErrDuplicateWord => "duplicate word"
  | ErrWordNotFound => "word not found"
  | ErrKeyRequired => "key required"
  | ErrKeyTooLarge => "key too large"
  | ErrValueTooLarge => "value too large"
  | ErrCommit msg => msg
  end.

Module bbolt.

Definition MaxKeySize : Z := 32768.
Definition MaxValueSize : Z := 2 ^ 31 - 2.

(** A transaction works on its own copy of the two buckets, the one named
    by [telegramBucket] and the one named by [kquizBucket]; [main] creates
    both before the loop starts. *)
Record Tx := mkTx { txTelegram : gmap string string; txKquiz : gmap string string }.

(** [bucket.Get(key)]: nil exactly when the key is absent (a stored empty
    value is not nil). *)
Definition Get (b : gmap string string) (key : string) : option string := b !! key.

(** [bucket.Put(key, value)] *)
Definition Put (b : gmap string string) (key value : string)
    : gmap string string * option error :=
  if decide (strings.len key = 0) then (b, Some ErrKeyRequired)
  else if decide (strings.len key > MaxKeySize) then (b, Some ErrKeyTooLarge)
  else if decide (strings.len value > MaxValueSize) then (b, Some ErrValueTooLarge)
  else (<[key := value]> b, None).

(** [bucket.Delete(key)] and [cursor.Delete()]: in a writable transaction
    over plain keys they do not fail. *)
Definition Delete (b : gmap string string) (key : string) : gmap string string :=
  delete key b.

(** [cursor.First()] and then [cursor.Next()] until the key is nil: the
    pairs of the bucket in the byte order of their keys. *)
Definition Cursor (b : gmap string string) : list (string * string) :=
  merge_sort (λ x y, String.le x.1 y.1) (map_to_list b).

(** [db.View(fn)]: [fn] reads a snapshot; on an open database the error is
    the one [fn] returns. The first component is what [fn] leaves in the
    variables it captures. *)
Definition View {A} (fn : Tx → A * option error) : M (A * option error) := λ w,
  Done (fn (mkTx (telegram w) (kquiz w)), w).

(** [db.Update(fn)]: when [fn] returns an error the transaction is rolled
    back and the error returned; else the commit is tried, and a failed
    commit leaves the store as it was. *)
Definition Update (fn : Tx → Tx * option error) : M (option error) := λ w,
  match fn (mkTx (telegram w) (kquiz w)) with
  | (_, Some e) => Done (Some e, w)
  | (tx, None) =>
      match mjoin (head (commitErrs w)) with
      | Some msg =>
          Done (Some (ErrCommit msg),
                mkWorld (telegram w) (kquiz w) (currRandomWord w) (sends w)
                  (logs w) (tail (commitErrs w)) (sendErrs w) (draws w))
      | None =>
          Done (None,
                mkWorld (txTelegram tx) (txKquiz tx) (currRandomWord w) (sends w)
                  (logs w) (tail (commitErrs w)) (sendErrs w) (draws w))
      end
  end.

End bbolt.

(** ** Package telegram: the BotHandler *)

(** A Go result [(value, error)] of which exactly one is non-nil. *)
Inductive res (A : Type) : Type :=
  | Ok (a : A)
  | Err (e : error).
Arguments Ok {A} a.
Arguments Err {A} e.

Module telegram.
Import bbolt.

(** [fmt.Sprintf("%d", chatID)] and [fmt.Sprintf("%d%s", chatID, word)] *)
Definition chatKey (chatID : Z) : string := pretty chatID.
Definition wordKey (chatID : Z) (word : string) : string := pretty chatID +:+ word.

Definition IsRegistered (chatID : Z) : M bool :=
  do '(exists_, err) <- View (λ tx,
      let data := Get (txTelegram tx) (chatKey chatID) in
      (bool_decide (data ≠ None), None));
  run match err with
      | Some e => Printf ("Failed to read data from telegram bucket. " +:+ Error e +:+ ".")
      | None => ret ()
      end;
  ret exists_.

Definition IsAdded (chatID : Z) (word : string) : M bool :=
  do '(exists_, err) <- View (λ tx,
      let key := wordKey chatID word in
      let data := Get (txKquiz tx) key in
      (bool_decide (data ≠ None), None));
  run match err with
      | Some e => Printf ("Failed to read data from telegram bucket. " +:+ Error e +:+ ".")
      | None => ret ()
      end;
  ret exists_.

Definition Register (chatID : Z) : M (option error) :=
  do registered <- IsRegistered chatID;
  if registered then ret (Some ErrAlreadyRegistered)
  else
    do err <- Update (λ tx,
        let key := chatKey chatID in
        let value := key in
        let '(b, e) := Put (txTelegram tx) key value in
        (mkTx b (txKquiz tx), e));
    match err with
    | Some e =>
        run Printf ("Failed to update registration data. " +:+ Error e +:+ ".");
        ret (Some ErrDatabaseError)
    | None => ret None
    end.

Definition Unregister (chatID : Z) : M (option error) :=
  do registered <- IsRegistered chatID;
  if negb registered then ret (Some ErrNotRegistered)
  else
    do err <- Update (λ tx,
        let key := chatKey chatID in
        (mkTx (Delete (txTelegram tx) key) (txKquiz tx), None));
    match err with
    | Some e =>
        run Printf ("Failed to update registration data. " +:+ Error e +:+ ".");
        ret (Some ErrDatabaseError)
    | None => ret None
    end.

Definition Add (chatID : Z) (word translation : string) : M (option error) :=
  do registered <- IsRegistered chatID;
  if negb registered then ret (Some ErrNotRegistered)
  else
    do added <- IsAdded chatID word;
    if added then ret (Some ErrDuplicateWord)
    else
      do err <- Update (λ tx,
          let key := wordKey chatID word in
          let '(b, e) := Put (txKquiz tx) key translation in
          (mkTx (txTelegram tx) b, e));
      match err with
      | Some e =>
          run Printf ("Failed to add word. " +:+ Error e +:+ ".");
          ret (Some ErrDatabaseError)
      | None => ret None
      end.

Definition Search (chatID : Z) (word : string) : M (res string) :=
  do registered <- IsRegistered chatID;
  if negb registered then ret (Err ErrNotRegistered)
  else
    do '(translation, err) <- View (λ tx,
        let key := wordKey chatID word in
        let translation := Get (txKquiz tx) key in
        match translation with
        | None => (translation, Some ErrWordNotFound)
        | Some _ => (translation, None)
        end);
    match err with
    | Some e =>
        run Printf ("Failed to get word. " +:+ Error e +:+ ".");
        if decide (e ≠ ErrWordNotFound) then ret (Err ErrDatabaseError)
        else ret (Err ErrWordNotFound)
    | None => ret (Ok (default EmptyString translation))
    end.

Definition Delete (chatID : Z) (word : string) : M (option error) :=
  do registered <- IsRegistered chatID;
  if negb registered then ret (Some ErrNotRegistered)
  else
    do added <- IsAdded chatID word;
    if negb added then ret (Some ErrWordNotFound)
    else
      do err <- Update (λ tx,
          let key := wordKey chatID word in
          (mkTx (txTelegram tx) (bbolt.Delete (txKquiz tx) key), None));
      match err with
      | Some e =>
          run Printf ("Failed to get word. " +:+ Error e +:+ ".");
          ret (Some ErrDatabaseError)
      | None => ret None
      end.

(** The cursor loop of [Clear]: every key of the bucket is visited once, in
    key order, and the ones with the prefix are deleted. *)
Definition clearLoop (chatIDStr : string) (b : gmap string string) : gmap string string :=
  foldl (λ acc kv,
           let keyStr := kv.1 in
           if negb (strings.HasPrefix keyStr chatIDStr) then acc
           else bbolt.Delete acc keyStr)
        b (Cursor b).

Definition Clear (chatID : Z) : M (option error) :=
  do registered <- IsRegistered chatID;
  if negb registered then ret (Some ErrNotRegistered)
  else
    do err <- Update (λ tx,
        let chatIDStr := chatKey chatID in
        (mkTx (txTelegram tx) (clearLoop chatIDStr (txKquiz tx)), None));
    match err with
    | Some e =>
        run Printf ("Failed to clear words. " +:+ Error e +:+ ".");
        ret (Some ErrDatabaseError)
    | None => ret None
    end.

(** The cursor loop of [List], appending to [wordMap]. *)
Definition listLoop (chatID : Z) (b : gmap string string) : list (list string) :=
  foldl (λ wordMap kv,
           if negb (strings.HasPrefix kv.1 (chatKey chatID)) then wordMap
           else
             let koreanWord := strings.ReplaceAll kv.1 (chatKey chatID) EmptyString in
             let translation := kv.2 in
             wordMap ++ [[koreanWord; translation]])
        [] (Cursor b).

Definition List (chatID : Z) : M (res (list (list string))) :=
  do registered <- IsRegistered chatID;
  if negb registered then ret (Err ErrNotRegistered)
  else
    do '(wordMap, err) <- View (λ tx, (listLoop chatID (txKquiz tx), None));
    match err with
    | Some e =>
        run Printf ("Failed to list words. " +:+ Error e +:+ ".");
        ret (Err ErrDatabaseError)
    | None =>
        if decide (length wordMap = 0%nat) then ret (Err ErrWordNotFound)
        else ret (Ok wordMap)
    end.

Definition Random (chatID : Z) : M (res (list string)) :=
  do registered <- IsRegistered chatID;
  if negb registered then ret (Err ErrNotRegistered)
  else
    do r <- List chatID;
    match r with
    | Err err =>
        run Printf ("Failed to get random word. " +:+ Error err +:+ ".");
        ret (Err err)
    | Ok items =>
        do idx <- Intn (Z.of_nat (length items));
        do item <- index items idx;
        ret (Ok item)
    end.

End telegram.

(** ** Package main: the senders and the update loop *)

(** The part of [tgbotapi.Update] that the loop reads. *)
Record Chat := newChat { UserName : string; ID : Z }.
Record Message := newMessage { MessageChat : Chat; MessageText : string }.
Record Update := newUpdate { UpdateMessage : option Message }.

(** [log.Printf] of a failed [Send]: every sender ends with it. *)
Definition logSendError (what : string) (err : option string) : M unit :=
  match err with
  | Some e => Printf (what +:+ " " +:+ e +:+ ".")
  | None => ret ()
  end.

Definition registerUser (chatID : Z) : M unit :=
  do err <- telegram.Register chatID;
  let msg :=
    match err with
    | Some e => NewMessage chatID ("Registration failed. " +:+ Error e +:+ ".")
    | None => NewMessage chatID "Thanks for your registration."
    end in
  do err <- Send msg;
  logSendError "Failed to respond to registration request." err.

Definition unregisterUser (chatID : Z) : M unit :=
  do err <- telegram.Unregister chatID;
  let msg :=
    match err with
    | Some e => NewMessage chatID ("Unregistration failed. " +:+ Error e +:+ ".")
    | None =>
        NewMessage chatID
          "You have been successfully unregistered. You will not receive any future updates."
    end in
  do err <- Send msg;
  logSendError "Failed to respond to unregistration request." err.

Definition addWord (chatID : Z) (word translation : string) : M unit :=
  do err <- telegram.Add chatID word translation;
  let msg :=
    match err with
    | Some e => NewMessage chatID ("Add word failed. " +:+ Error e +:+ ".")
    | None =>
        NewMessage chatID
          ("New word successfully added. " +:+ word +:+ " -> " +:+ translation +:+ ".")
    end in
  do err <- Send msg;
  logSendError "Failed to respond to add word request." err.

Definition searchWord (chatID : Z) (word : string) : M unit :=
  do r <- telegram.Search chatID word;
  let msg :=
    match r with
    | Err e => NewMessage chatID ("Search word failed. " +:+ Error e +:+ ".")
    | Ok translation => NewMessage chatID (word +:+ " -> " +:+ translation +:+ ".")
    end in
  do err <- Send msg;
  logSendError "Failed to respond to search word request." err.

(** Returns the pair of [Random], or nil when it failed. *)
Definition randomWord (chatID : Z) : M (option (list string)) :=
  do r <- telegram.Random chatID;
  do '(msg, words) <-
    match r with
    | Err e =>
        ret (NewMessage chatID ("Get random word failed. " +:+ Error e +:+ "."), None)
    | Ok words =>
        do w0 <- index words 0;
        ret (NewMessage chatID ("What is translation for: " +:+ w0), Some words)
    end;
  do err <- Send msg;
  run logSendError "Failed to respond to random word request." err;
  ret words.

Definition deleteWord (chatID : Z) (word : string) : M unit :=
  do err <- telegram.Delete chatID word;
  let msg :=
    match err with
    | Some e => NewMessage chatID ("Delete word failed. " +:+ Error e +:+ ".")
    | None => NewMessage chatID (word +:+ " deleted.")
    end in
  do err <- Send msg;
  logSendError "Failed to respond to delete word request." err.

Definition clearWords (chatID : Z) : M unit :=
  do err <- telegram.Clear chatID;
  let msg :=
    match err with
    | Some e => NewMessage chatID ("Clear words failed. " +:+ Error e +:+ ".")
    | None => NewMessage chatID "Words cleared."
    end in
  do err <- Send msg;
  logSendError "Failed to respond to clear words request." err.

(** The [for _, pairs := range words] of [listWords]. *)
Fixpoint sendPairs (chatID : Z) (words : list (list string)) : M unit :=
  match words with
  | [] => ret ()
  | pairs :: rest =>
      do word <- index pairs 0;
      do translation <- index pairs 1;
      let msg := NewMessage chatID (word +:+ " -> " +:+ translation) in
      do err <- Send msg;
      run logSendError "Failed to respond to list words request." err;
      sendPairs chatID rest
  end.

Definition listWords (chatID : Z) : M unit :=
  do r <- telegram.List chatID;
  match r with
  | Err e =>
      let msg := NewMessage chatID ("List words failed. " +:+ Error e +:+ ".") in
      do err <- Send msg;
      logSendError "Failed to respond to list words request." err
  | Ok words => sendPairs chatID words
  end.

(** The split of the text at its first space: the part before it is the
    message the switch looks at, the rest the argument. *)
Definition splitMessage (message : string) : M (string * string) :=
  let argument := EmptyString in
  let spaceIndex := strings.Index message " " in
  if decide (spaceIndex ≠ -1) then
    do argument <- sliceFrom message (spaceIndex + 1);
    do message <- sliceTo message spaceIndex;
    ret (message, argument)
  else ret (message, argument).

Section UpdateLoop.

(** [strings.ToLower], Go's Unicode lower-casing; the loop only compares
    its results. *)
Variable ToLower : string → string.

(** The [default] case of the switch. *)
Definition answerRandomWord (chatID : Z) (message : string) : M unit :=
  do found <- lookupRandomWord chatID;
  match found with
  | None => Printf ("Unknown command [" +:+ message +:+ "].")
  | Some answer =>
      let msg :=
        if decide (ToLower message = ToLower answer)
        then NewMessage chatID "Your answer is correct"
        else NewMessage chatID
               ("Your answer is incorrect. Correct answer is " +:+ answer +:+ ".") in
      do err <- Send msg;
      run logSendError "Failed to respond to answer." err;
      deleteRandomWord chatID
  end.

(** The [switch message] of the loop. *)
Definition switchMessage (chatID : Z) (message argument : string) : M unit :=
  if decide (message = "/start" ∨ message = "/register") then
    registerUser chatID
  else if decide (message = "/stop" ∨ message = "/unregister") then
    unregisterUser chatID
  else if decide (message = "/add") then
    if decide (strings.len argument = 0 ∨ strings.Index argument " " = -1) then
      let msg :=
        NewMessage chatID "Please provide the Korean word and its translation." in
      do err <- Send msg;
      logSendError "Failed to send response." err
    else
      let splitted := strings.SplitN argument " " 2 in
      do word <- index splitted 0;
      do translation <- index splitted 1;
      addWord chatID word translation
  else if decide (message = "/search") then
    if decide (strings.len argument = 0) then
      let msg := NewMessage chatID "Please provide the Korean word." in
      do err <- Send msg;
      logSendError "Failed to send response." err
    else searchWord chatID argument
  else if decide (message = "/random") then
    do words <- randomWord chatID;
    match words with
    | Some words =>
        do w1 <- index words 1;
        storeRandomWord chatID w1
    | None => ret ()
    end
  else if decide (message = "/delete") then
    if decide (strings.len argument = 0) then
      let msg := NewMessage chatID "Please provide the Korean word." in
      do err <- Send msg;
      logSendError "Failed to send response." err
    else deleteWord chatID argument
  else if decide (message = "/list") then
    listWords chatID
  else if decide (message = "/clear") then
    clearWords chatID
  else answerRandomWord chatID message.

(** The line logged for every message that comes in. *)
Definition receivedLine (m : Message) : string :=
  "Received message from " +:+ UserName (MessageChat m) +:+ "["
  +:+ pretty (ID (MessageChat m)) +:+ "]: " +:+ MessageText m.

(** One turn of [for update := range updates]. *)
Definition handleUpdate (update : Update) : M unit :=
  match UpdateMessage update with
  | None => ret ()
  | Some m =>
      let chatID := ID (MessageChat m) in
      let message := MessageText m in
      run Printf (receivedLine m);
      do '(message, argument) <- splitMessage message;
      switchMessage chatID message argument
  end.

(** The loop over the updates the transport delivers. *)
Fixpoint serve (updates : list Update) : M unit :=
  match updates with
  | [] => ret ()
  | update :: rest => run handleUpdate update; serve rest
  end.

End UpdateLoop.

(** Lower-casing of the ASCII letters, every other byte kept: what
    [strings.ToLower] does on ASCII text. *)
Definition lowerByte (c : ascii) : ascii :=
  let n := N_of_ascii c in
  if decide (65 <= n <= 90)%N then ascii_of_N (n + 32) else c.

Fixpoint lowerASCII (s : string) : string :=
  match s with
  | EmptyString => EmptyString
  | String c s' => String (lowerByte c) (lowerASCII s')
  end.

(** The state [main] hands to the loop on a fresh [kquiz.db]: both buckets
    created and empty, no word pending. *)
Definition start : World := mkWorld ∅ ∅ ∅ [] [] [] [] [].

(** * The vocabulary of the statements *)

(** A chat is a registrant when its decimal form is a key of the
    registration bucket. *)
Definition registered (w : World) (chatID : Z) : Prop :=
  is_Some (telegram w !! telegram.chatKey chatID).

Global Instance registered_dec w chatID : Decision (registered w chatID).
Proof. unfold registered. apply _. Defined.

(** The state after chat 42 has registered. *)
Definition registered42 : World :=
  mkWorld {[ "42" := "42" ]} ∅ ∅ [] [] [] [] [].

(** The pair [List] makes of one entry of the bucket. *)
Definition listed (chatID : Z) (kv : string * string) : list string :=
  [strings.ReplaceAll kv.1 (telegram.chatKey chatID) EmptyString; kv.2].

(** Chat 42 registered, with two words of its own. *)
Definition twoWords42 : World :=
  mkWorld {[ "42" := "42" ]} {[ "42sagwa" := "apple"; "42mul" := "water" ]}
    ∅ [] [] [] [] [7].

(** The words the switch has a case for. *)
Definition commands : list string :=
  ["/start"; "/register"; "/stop"; "/unregister"; "/add"; "/search"; "/random";
   "/delete"; "/list"; "/clear"].

(** What the split leaves in [message] and in [argument]. *)
Definition command (text : string) : string :=
  match strings.find text " " with
  | Some i => strings.take i text
  | None => text
  end.

Definition argument (text : string) : string :=
  match strings.find text " " with
  | Some i => strings.drop (S i) text
  | None => EmptyString
  end.

(** The reply of the [default] case to [message] when [answer] is pending. *)
Definition verdict (ToLower : string → string) (chatID : Z) (message answer : string)
    : MessageConfig :=
  if decide (ToLower message = ToLower answer)
  then NewMessage chatID "Your answer is correct"
  else NewMessage chatID
         ("Your answer is incorrect. Correct answer is " +:+ answer +:+ ".").

(** Whether the switch has a case for the word. *)
Definition isCommand (message : string) : bool := bool_decide (message ∈ commands).

(** The message with text [s] from a chat. *)
Definition says (chat : Chat) (s : string) : Update :=
  newUpdate (Some (newMessage chat s)).

(** Chat 7 is registered, owns one word and has been asked for it. *)
Definition asked7 : World :=
  mkWorld {[ "7" := "7" ]} {[ "7sagwa" := "apple" ]} {[ 7 := "apple" ]}
    [] [] [] [] [].

(** The sentence on answers, as the specification has it: with a word
    pending for the chat, the reply to the next message is the verdict on the
    whole text of that message. *)
Definition answer_claim (ToLower : string → string) : Prop :=
  ∀ (chat : Chat) (msg answer : string) (w w' : World),
    currRandomWord w !! ID chat = Some answer →
    handleUpdate ToLower (says chat msg) w = Done ((), w') →
    sends w' = sends w ++ [verdict ToLower (ID chat) msg answer].

(** The reply of [/add] to an argument it cannot split. *)
Definition addUsage (chatID : Z) : MessageConfig :=
  NewMessage chatID "Please provide the Korean word and its translation.".

(** White space in the usual sense: space, tab, line feed and the like. *)
Fixpoint hasWhiteSpace (s : string) : bool :=
  match s with
  | EmptyString => false
  | String c s' => Ascii.is_space c || hasWhiteSpace s'
  end.

(** The sentence on [/add], as the specification has it: an argument with
    white space in it is split at the white space and goes to [Add]; one
    without gets the usage prompt. *)
Definition add_claim (ToLower : string → string) : Prop :=
  ∀ (chat : Chat) (msg : string) (w : World),
    command msg = "/add" →
    if hasWhiteSpace (argument msg) then
      ∃ word c translation,
        argument msg = word +:+ String c translation
        ∧ Ascii.is_space c = true ∧ hasWhiteSpace word = false
        ∧ handleUpdate ToLower (says chat msg) w
          = addWord (ID chat) word translation
              (logged (receivedLine (newMessage chat msg)) w)
    else
      ∃ w', handleUpdate ToLower (says chat msg) w = Done ((), w')
            ∧ sends w' = sends w ++ [addUsage (ID chat)].

(** A word and its translation on two lines: the argument has white space
    but no space, and the reply is the usage prompt. *)
Definition addOnTwoLines : string := "/add sagwa" +:+ String "010" "apple".

(** Chats 1 and 12 are registered, each with one word. *)
Definition sharedStore : World :=
  mkWorld {[ "1" := "1"; "12" := "12" ]} {[ "1sagwa" := "apple"; "12mul" := "water" ]}
    ∅ [] [] [] [] [].

(** The state after chat 1 has registered. *)
Definition registered1 : World := mkWorld {[ "1" := "1" ]} ∅ ∅ [] [] [] [] [].

(** The store refuses the next commit. *)
Definition failingStore : World :=
  mkWorld {[ "42" := "42" ]} {[ "42sagwa" := "apple" ]} ∅ [] [] [Some "disk full"] [] [].

(** A computation that returns from every state, with a result in [P] and
    a final state related to the first by [R]. *)
Definition holds {A} (R : World → World → Prop) (m : M A) (P : A → Prop) : Prop :=
  ∀ w, ∃ a w', m w = Done (a, w') ∧ R w w' ∧ P a.

(** What a turn of the loop for a chat may do to the outbox, to the pending
    words and to the store. *)
Definition repliesTo (chatID : Z) (w w' : World) : Prop :=
  ∃ msgs, sends w' = sends w ++ msgs ∧ Forall (λ msg, ChatID msg = chatID) msgs.

Definition keepsOtherWords (chatID : Z) (w w' : World) : Prop :=
  ∀ other, other ≠ chatID → currRandomWord w' !! other = currRandomWord w !! other.

Definition keepsStore (w w' : World) : Prop :=
  telegram w' = telegram w ∧ kquiz w' = kquiz w ∧ commitErrs w' = commitErrs w.

(** The message [listWords] sends for a pair. *)
Definition pairMessage (chatID : Z) (pairs : list string) : MessageConfig :=
  NewMessage chatID
    (default EmptyString (pairs !! 0%nat) +:+ " -> " +:+ default EmptyString (pairs !! 1%nat)).

(** The reply of [/search] and of [/delete] to an empty argument. *)
Definition wordUsage (chatID : Z) : MessageConfig :=
  NewMessage chatID "Please provide the Korean word.".

(** Two states that differ at most in the log and in what the transport
    will answer. *)
Definition sameButLog (w1 w2 : World) : Prop :=
  telegram w1 = telegram w2 ∧ kquiz w1 = kquiz w2
  ∧ currRandomWord w1 = currRandomWord w2 ∧ sends w1 = sends w2
  ∧ commitErrs w1 = commitErrs w2 ∧ draws w1 = draws w2.

(** Two computations that, from two such states, both return, with results
    in [Q] and in two such states again. *)
Definition alike {A} (Q : A → A → Prop) (m1 m2 : M A) : Prop :=
  ∀ w1 w2, sameButLog w1 w2 →
    ∃ a1 a2 w1' w2',
      m1 w1 = Done (a1, w1') ∧ m2 w2 = Done (a2, w2')
      ∧ sameButLog w1' w2' ∧ Q a1 a2.

(** The transport fails the next [Send]. *)
Definition failingTransport : World :=
  mkWorld {[ "7" := "7" ]} {[ "7sagwa" := "apple" ]} {[ 7 := "apple" ]}
    [] [] [] [Some "timeout"] [].

(** * Properties *)

(** The string functions on the texts of the loop. *)
Example ex_index : strings.Index "/add a b" " " = 4.
Proof. reflexivity. Qed.

Example ex_index_none : strings.Index "/list" " " = -1.
Proof. reflexivity. Qed.

Example ex_splitn : strings.SplitN "a b c" " " 2 = ["a"; "b c"].
Proof. reflexivity. Qed.

Example ex_replace : strings.ReplaceAll "1a1b" "1" EmptyString = "ab".
Proof. reflexivity. Qed.

Example ex_replace2 : strings.ReplaceAll "12ab12c1" "12" EmptyString = "abc1".
Proof. reflexivity. Qed.

Example ex_pretty : pretty (-42 : Z) = "-42".
Proof. reflexivity. Qed.


(** ** Strings *)

Section StringFacts.
Import strings.

Lemma app_cons c s t : String c s +:+ t = String c (s +:+ t).
Proof. reflexivity. Qed.

Lemma app_nil_l t : EmptyString +:+ t = t.
Proof. reflexivity. Qed.

Lemma length_app s t :
  String.length (s +:+ t) = (String.length s + String.length t)%nat.
Proof. induction s as [|c s IH]; [done|]. rewrite app_cons. simpl. by rewrite IH. Qed.

Lemma HasPrefix_app p t : HasPrefix (p +:+ t) p = true.
Proof.
  induction p as [|c p IH]; [reflexivity|].
  rewrite app_cons. simpl. by rewrite decide_True.
Qed.

Lemma HasPrefix_inv s p : HasPrefix s p = true → ∃ t, s = p +:+ t.
Proof.
  revert s. induction p as [|c p IH]; intros s H.
  - by exists s.
  - destruct s as [|d s]; simpl in H; [done|].
    destruct (decide (d = c)) as [->|]; [|done].
    destruct (IH _ H) as [t ->]. by exists t.
Qed.

(** A prefix of [a +:+ t] is a prefix of [a] or has [a] as a prefix. *)
Lemma HasPrefix_app_inv a t p :
  HasPrefix (a +:+ t) p = true → HasPrefix a p = true ∨ HasPrefix p a = true.
Proof.
  revert a. induction p as [|c p IH]; intros a; [by left|].
  destruct a as [|d a]; [by right|].
  rewrite app_cons. simpl.
  destruct (decide (d = c)) as [->|]; [|done].
  rewrite decide_True by done. apply IH.
Qed.

Lemma take_drop n s : take n s +:+ drop n s = s.
Proof.
  revert s. induction n as [|n IH]; intros [|c s]; simpl; try done.
  rewrite app_cons. f_equal. apply IH.
Qed.

Lemma length_take n s : (n ≤ String.length s)%nat → String.length (take n s) = n.
Proof.
  revert s. induction n as [|n IH]; intros [|c s]; simpl; intros; try done; try lia.
  f_equal. apply IH. lia.
Qed.

Lemma find_bound s sep i :
  find s sep = Some i → (i + String.length sep ≤ String.length s)%nat.
Proof.
  revert i. induction s as [|c s IH]; intros i; simpl.
  - destruct sep; simpl; [|done]. intros [= <-]. simpl. lia.
  - destruct (HasPrefix (String c s) sep) eqn:Hp.
    + intros [= <-]. apply HasPrefix_inv in Hp as [t Ht].
      apply (f_equal String.length) in Ht. rewrite length_app in Ht.
      simpl in *. lia.
    + destruct (find s sep) as [j|]; simpl; [|done].
      intros [= <-]. specialize (IH _ eq_refl). simpl. lia.
Qed.

(** At the position [find] returns, the separator occurs. *)
Lemma find_occurs s sep i :
  find s sep = Some i → HasPrefix (drop i s) sep = true.
Proof.
  revert i. induction s as [|c s IH]; intros i; simpl.
  - destruct sep; simpl; [|done]. by intros [= <-].
  - destruct (HasPrefix (String c s) sep) eqn:Hp.
    + by intros [= <-].
    + destruct (find s sep) as [j|]; simpl; [|done].
      intros [= <-]. simpl. by apply IH.
Qed.

(** Before that position it does not: the piece in front is free of it. *)
Lemma find_first s c i :
  find s (String c EmptyString) = Some i → find (take i s) (String c EmptyString) = None.
Proof.
  revert i. induction s as [|d s IH]; intros i; simpl; [done|].
  destruct (decide (d = c)) as [->|Hne].
  - by intros [= <-].
  - destruct (find s (String c EmptyString)) as [j|] eqn:Hj; simpl; [|done].
    intros [= <-]. simpl. rewrite decide_False by done.
    by rewrite (IH _ eq_refl).
Qed.

Lemma drop_S_sep s c i :
  HasPrefix (drop i s) (String c EmptyString) = true → drop i s = String c (drop (S i) s).
Proof.
  revert s. induction i as [|i IH]; intros [|d s]; simpl; try done.
  - destruct (decide (d = c)) as [->|]; done.
  - apply IH.
Qed.

(** The text splits around the first occurrence of a one-byte separator. *)
Lemma find_split s c i :
  find s (String c EmptyString) = Some i →
  s = take i s +:+ String c (drop (S i) s) ∧ find (take i s) (String c EmptyString) = None.
Proof.
  intros H. split; [|by apply find_first].
  rewrite <-(drop_S_sep s c i) by by apply find_occurs.
  by rewrite take_drop.
Qed.

Lemma find_app_None u c v :
  find u (String c EmptyString) = None →
  find (u +:+ String c v) (String c EmptyString) = Some (String.length u).
Proof.
  induction u as [|d u IH]; simpl.
  - intros _. simpl. by rewrite decide_True.
  - destruct (decide (d = c)); [done|].
    destruct (find u (String c EmptyString)) eqn:E; simpl; [done|].
    intros _. by rewrite IH.
Qed.

End StringFacts.

(** ** The handler over the store *)

Section HandlerFacts.
Import telegram.

Lemma bool_decide_ne_None {A} (o : option A) :
  bool_decide (o ≠ None) = bool_decide (is_Some o).
Proof. apply bool_decide_ext. destruct o; split; intros H; try done; by destruct H. Qed.

(** The two checks read the store and change nothing. *)
Lemma IsRegistered_spec chatID w :
  IsRegistered chatID w = Done (bool_decide (registered w chatID), w).
Proof.
  unfold IsRegistered, bind, bbolt.View, bbolt.Get, ret, registered. simpl.
  by rewrite bool_decide_ne_None.
Qed.

Lemma IsAdded_spec chatID word w :
  IsAdded chatID word w
  = Done (bool_decide (is_Some (kquiz w !! wordKey chatID word)), w).
Proof.
  unfold IsAdded, bind, bbolt.View, bbolt.Get, ret. simpl.
  by rewrite bool_decide_ne_None.
Qed.

(** Every operation starts with the registration check. *)
Lemma bind_IsRegistered {A} chatID (k : bool → M A) w :
  bind (IsRegistered chatID) k w = k (bool_decide (registered w chatID)) w.
Proof. unfold bind. by rewrite IsRegistered_spec. Qed.

Lemma bind_IsAdded {A} chatID word (k : bool → M A) w :
  bind (IsAdded chatID word) k w
  = k (bool_decide (is_Some (kquiz w !! wordKey chatID word))) w.
Proof. unfold bind. by rewrite IsAdded_spec. Qed.

Lemma Unregister_frame chatID w :
  ∃ err w', Unregister chatID w = Done (err, w')
            ∧ kquiz w' = kquiz w ∧ currRandomWord w' = currRandomWord w.
Proof.
  unfold Unregister. rewrite bind_IsRegistered.
  destruct (bool_decide (registered w chatID)); simpl; [|by eauto].
  unfold bind, bbolt.Update; simpl.
  destruct (mjoin (head (commitErrs w))); simpl; eauto.
Qed.

Lemma Register_frame chatID w :
  ∃ err w', Register chatID w = Done (err, w')
            ∧ kquiz w' = kquiz w ∧ currRandomWord w' = currRandomWord w.
Proof.
  unfold Register. rewrite bind_IsRegistered.
  destruct (bool_decide (registered w chatID)); simpl; [by eauto|].
  unfold bind, bbolt.Update; simpl.
  destruct (bbolt.Put (telegram w) (chatKey chatID) (chatKey chatID)) as [b [e|]];
    simpl; [by eauto|].
  destruct (mjoin (head (commitErrs w))); simpl; eauto.
Qed.

End HandlerFacts.

(** C9. [Unregister] writes to the registration bucket only: whatever it
    returns, every entry of the vocabulary bucket (of this chat and of every
    other) is as before, and it is still so after the chat registers again. *)
Theorem Unregister_keeps_vocabulary (chatID : Z) (w : World) :
  ∃ err1 w1 err2 w2,
    telegram.Unregister chatID w = Done (err1, w1)
    ∧ kquiz w1 = kquiz w
    ∧ telegram.Register chatID w1 = Done (err2, w2)
    ∧ kquiz w2 = kquiz w.
Proof.
  destruct (Unregister_frame chatID w) as (err1 & w1 & H1 & Hk1 & _).
  destruct (Register_frame chatID w1) as (err2 & w2 & H2 & Hk2 & _).
  exists err1, w1, err2, w2. repeat split; try done. congruence.
Qed.

Section AddFacts.
Import telegram.

(** On an unregistered chat [Add] stops at the first check, whatever the
    vocabulary bucket holds. *)
Lemma Add_unregistered chatID word translation w :
  ¬ registered w chatID →
  Add chatID word translation w = Done (Some ErrNotRegistered, w).
Proof.
  intros H. unfold Add. rewrite bind_IsRegistered.
  by rewrite bool_decide_eq_false_2.
Qed.

(** What a successful [Add] leaves behind. *)
Lemma Add_success chatID word translation w w1 :
  Add chatID word translation w = Done (None, w1) →
  registered w chatID
  ∧ kquiz w !! wordKey chatID word = None
  ∧ telegram w1 = telegram w
  ∧ kquiz w1 = <[wordKey chatID word := translation]> (kquiz w).
Proof.
  unfold Add. rewrite bind_IsRegistered.
  destruct (bool_decide_reflect (registered w chatID)) as [Hr|Hr]; simpl; [|done].
  rewrite bind_IsAdded.
  destruct (bool_decide_reflect (is_Some (kquiz w !! wordKey chatID word)))
    as [Ha|Ha]; simpl; [done|].
  unfold bind, bbolt.Update, bbolt.Put; simpl.
  repeat case_decide; simpl; try done.
  destruct (mjoin (head (commitErrs w))); simpl; [done|].
  intros [= <-]; simpl. repeat split; try done.
  by apply eq_None_not_Some.
Qed.

Lemma Add_duplicate chatID word translation w :
  registered w chatID →
  is_Some (kquiz w !! wordKey chatID word) →
  Add chatID word translation w = Done (Some ErrDuplicateWord, w).
Proof.
  intros Hr Ha. unfold Add. rewrite bind_IsRegistered.
  rewrite bool_decide_eq_true_2 by done. simpl.
  rewrite bind_IsAdded. by rewrite bool_decide_eq_true_2.
Qed.

End AddFacts.

(** C6. [Add] on a chat that is not registered fails with [ErrNotRegistered],
    also when the word is already in the bucket (the registration check comes
    first); and after an [Add] that succeeded, adding the same word again for
    the same chat fails with [ErrDuplicateWord], whatever the translation. *)
Theorem Add_NotRegistered_then_DuplicateWord
    (chatID : Z) (word translation : string) (w : World) :
  (¬ registered w chatID →
   telegram.Add chatID word translation w = Done (Some ErrNotRegistered, w))
  ∧ (∀ w1 translation',
       telegram.Add chatID word translation w = Done (None, w1) →
       telegram.Add chatID word translation' w1 = Done (Some ErrDuplicateWord, w1)).
Proof.
  split; [apply Add_unregistered|].
  intros w1 translation' H.
  apply Add_success in H as (Hr & _ & Ht & Hk).
  apply Add_duplicate.
  - unfold registered in *. by rewrite Ht.
  - rewrite Hk, lookup_insert_eq. by eexists.
Qed.

Lemma Add_NotRegistered_then_DuplicateWord_witness :
  telegram.Add 42 "sagwa" "apple" start = Done (Some ErrNotRegistered, start)
  ∧ ∃ w1, telegram.Add 42 "sagwa" "apple" registered42 = Done (None, w1)
          ∧ telegram.Add 42 "sagwa" "pomme" w1 = Done (Some ErrDuplicateWord, w1).
Proof.
  split.
  - apply (Add_NotRegistered_then_DuplicateWord 42 "sagwa" "apple" start).
    vm_compute. by intros [? ?].
  - eexists. split; [vm_compute; reflexivity|].
    apply (Add_NotRegistered_then_DuplicateWord 42 "sagwa" "apple" registered42).
    vm_compute; reflexivity.
Defined.

Section ListFacts.
Import telegram.

Lemma listLoop_foldl chatID (l : list (string * string)) (acc : list (list string)) :
  foldl (λ wordMap kv,
           if negb (strings.HasPrefix kv.1 (chatKey chatID)) then wordMap
           else wordMap ++ [[strings.ReplaceAll kv.1 (chatKey chatID) EmptyString; kv.2]])
        acc l
  = acc ++ (listed chatID <$> filter (λ kv, strings.HasPrefix kv.1 (chatKey chatID)) l).
Proof.
  revert acc. induction l as [|kv l IH]; intros acc; simpl.
  - by rewrite app_nil_r.
  - rewrite IH, filter_cons.
    destruct (strings.HasPrefix kv.1 (chatKey chatID)) eqn:E; simpl.
    + by rewrite <-app_assoc.
    + done.
Qed.

(** [List] returns, in cursor order, the pairs of the entries whose key
    starts with the decimal form of the chat. *)
Lemma listLoop_spec chatID b :
  listLoop chatID b
  = listed chatID
      <$> filter (λ kv, strings.HasPrefix kv.1 (chatKey chatID)) (bbolt.Cursor b).
Proof. unfold listLoop. by rewrite listLoop_foldl. Qed.

Lemma listLoop_pairs chatID b item :
  item ∈ listLoop chatID b → ∃ word translation, item = [word; translation].
Proof.
  rewrite listLoop_spec. intros (kv & -> & _)%list_elem_of_fmap.
  by eexists _, _.
Qed.

Lemma List_spec chatID w :
  List chatID w
  = Done (if bool_decide (registered w chatID) then
            if decide (length (listLoop chatID (kquiz w)) = 0%nat)
            then Err ErrWordNotFound
            else Ok (listLoop chatID (kquiz w))
          else Err ErrNotRegistered, w).
Proof.
  unfold List. rewrite bind_IsRegistered.
  destruct (bool_decide (registered w chatID)); simpl; [|done].
  unfold bind, bbolt.View; simpl. by case_decide.
Qed.

(** A successful [List] is never empty. *)
Lemma List_Ok_inv chatID w items w1 :
  List chatID w = Done (Ok items, w1) →
  w1 = w ∧ registered w chatID ∧ items = listLoop chatID (kquiz w) ∧ items ≠ [].
Proof.
  rewrite List_spec.
  destruct (bool_decide_reflect (registered w chatID)); [|done].
  case_decide as Hlen; [done|]. intros [= <- <-]. repeat split; try done.
  intros E. by rewrite E in Hlen.
Qed.

Lemma index_lookup {A} (l : list A) (i : Z) x w :
  0 <= i → l !! Z.to_nat i = Some x → index l i w = Done (x, w).
Proof. intros Hi Hx. unfold index. rewrite decide_True by done. by rewrite Hx. Qed.

(** [Random] in the three cases of its two checks. *)
Lemma Random_unregistered chatID w :
  ¬ registered w chatID → Random chatID w = Done (Err ErrNotRegistered, w).
Proof.
  intros H. unfold Random. rewrite bind_IsRegistered.
  by rewrite bool_decide_eq_false_2.
Qed.

Lemma Random_List_Err chatID w e :
  registered w chatID → List chatID w = Done (Err e, w) →
  ∃ w', Random chatID w = Done (Err e, w').
Proof.
  intros Hr HL. unfold Random. rewrite bind_IsRegistered.
  rewrite bool_decide_eq_true_2 by done. simpl.
  unfold bind at 1. rewrite HL. unfold bind, Printf, ret. by eexists.
Qed.

Lemma Random_List_Ok chatID w items :
  registered w chatID → List chatID w = Done (Ok items, w) → items ≠ [] →
  ∃ item w', Random chatID w = Done (Ok item, w') ∧ item ∈ items.
Proof.
  intros Hr HL Hne. unfold Random. rewrite bind_IsRegistered.
  rewrite bool_decide_eq_true_2 by done. simpl.
  unfold bind at 1. rewrite HL. unfold bind at 1, Intn.
  assert (0 < Z.of_nat (length items)) as Hlen by (destruct items; simpl; [done|lia]).
  rewrite decide_False by lia.
  set (idx := default 0 (head (draws w)) `mod` Z.of_nat (length items)).
  assert (0 <= idx < Z.of_nat (length items)) as Hidx by (by apply Z.mod_pos_bound).
  destruct (lookup_lt_is_Some_2 items (Z.to_nat idx)) as [item Hitem]; [lia|].
  unfold bind. erewrite index_lookup by (done || lia).
  exists item. eexists. split; [done|]. by eapply list_elem_of_lookup_2.
Qed.

End ListFacts.

(** C5. [Random] never panics; it fails with [ErrWordNotFound] only when the
    [List] it calls failed with it; and when [List] succeeds the list is not
    empty, the drawn index is within it, and [Random] returns one of its
    (word, translation) pairs. *)
Theorem Random_returns_pair_of_List (chatID : Z) (w : World) :
  (∃ r w', telegram.Random chatID w = Done (r, w'))
  ∧ (∀ w', telegram.Random chatID w = Done (Err ErrWordNotFound, w') →
           telegram.List chatID w = Done (Err ErrWordNotFound, w))
  ∧ (∀ items w1, telegram.List chatID w = Done (Ok items, w1) →
       items ≠ []
       ∧ ∃ word translation w2,
           telegram.Random chatID w = Done (Ok [word; translation], w2)
           ∧ [word; translation] ∈ items).
Proof.
  assert (∀ items w1, telegram.List chatID w = Done (Ok items, w1) →
       items ≠ []
       ∧ ∃ word translation w2,
           telegram.Random chatID w = Done (Ok [word; translation], w2)
           ∧ [word; translation] ∈ items) as HOk.
  { intros items w1 HL.
    destruct (List_Ok_inv _ _ _ _ HL) as (-> & Hr & Hitems & Hne).
    split; [done|].
    destruct (Random_List_Ok _ _ _ Hr HL Hne) as (item & w2 & HR & Hin).
    destruct (listLoop_pairs chatID (kquiz w) item) as (word & tr & ->);
      [by rewrite <-Hitems|].
    by exists word, tr, w2. }
  destruct (decide (registered w chatID)) as [Hr|Hr].
  - destruct (telegram.List chatID w) as [[[items|e] w1]|] eqn:HL;
      [| |by rewrite List_spec in HL].
    + destruct (HOk _ _ eq_refl) as (_ & word & tr & w2 & HR & _).
      split; [by eauto|split; [|done]].
      intros w'. by rewrite HR.
    + assert (w1 = w) as -> by (rewrite List_spec in HL; congruence).
      destruct (Random_List_Err _ _ _ Hr HL) as [w' HR].
      split; [by eauto|split; [|done]].
      intros w''. rewrite HR. by intros [= -> _].
  - rewrite (Random_unregistered _ _ Hr).
    split; [by eauto|split; [done|]].
    intros items w1 HL. by destruct (List_Ok_inv _ _ _ _ HL) as (_ & ? & _).
Qed.

Lemma Random_returns_pair_of_List_witness :
  ∃ word translation w2,
    telegram.Random 42 twoWords42 = Done (Ok [word; translation], w2)
    ∧ [word; translation] ∈ [["mul"; "water"]; ["sagwa"; "apple"]].
Proof.
  apply (Random_returns_pair_of_List 42 twoWords42) with (w1 := twoWords42).
  vm_compute. reflexivity.
Defined.

(** ** The update loop *)

Section LoopFacts.
Variable ToLower : string → string.

Lemma splitMessage_spec text w :
  splitMessage text w = Done ((command text, argument text), w).
Proof.
  unfold splitMessage, command, argument, strings.Index.
  destruct (strings.find text " ") as [i|] eqn:Hi; [|done].
  pose proof (find_bound _ _ _ Hi) as Hb. simpl in Hb.
  rewrite decide_True by lia.
  unfold bind, sliceFrom, sliceTo, strings.len.
  rewrite decide_True by lia. simpl.
  rewrite decide_True by lia. simpl. unfold ret.
  by replace (Z.to_nat (Z.of_nat i + 1)) with (S i) by lia; rewrite Nat2Z.id.
Qed.

Lemma handleUpdate_spec m w :
  handleUpdate ToLower (newUpdate (Some m)) w
  = switchMessage ToLower (ID (MessageChat m)) (command (MessageText m))
      (argument (MessageText m)) (logged (receivedLine m) w).
Proof.
  unfold handleUpdate. simpl. unfold bind at 1, Printf.
  unfold bind. by rewrite splitMessage_spec.
Qed.

(** A message that is no command goes to the [default] case. *)
Lemma switchMessage_default chatID message arg :
  message ∉ commands →
  switchMessage ToLower chatID message arg = answerRandomWord ToLower chatID message.
Proof.
  intros H. unfold commands in H. rewrite !not_elem_of_cons in H.
  destruct H as (? & ? & ? & ? & ? & ? & ? & ? & ? & ? & _).
  unfold switchMessage.
  rewrite (decide_False (P := message = "/start" ∨ message = "/register")) by tauto.
  rewrite (decide_False (P := message = "/stop" ∨ message = "/unregister")) by tauto.
  rewrite (decide_False (P := message = "/add")) by done.
  rewrite (decide_False (P := message = "/search")) by done.
  rewrite (decide_False (P := message = "/random")) by done.
  rewrite (decide_False (P := message = "/delete")) by done.
  rewrite (decide_False (P := message = "/list")) by done.
  by rewrite (decide_False (P := message = "/clear")) by done.
Qed.

(** The [default] case with and without a pending word. *)
Lemma answerRandomWord_pending chatID message answer w :
  currRandomWord w !! chatID = Some answer →
  ∃ w', answerRandomWord ToLower chatID message w = Done ((), w')
        ∧ sends w' = sends w ++ [verdict ToLower chatID message answer]
        ∧ currRandomWord w' = delete chatID (currRandomWord w)
        ∧ telegram w' = telegram w ∧ kquiz w' = kquiz w.
Proof.
  intros H. unfold answerRandomWord, bind at 1, lookupRandomWord. rewrite H.
  unfold bind, Send, logSendError, deleteRandomWord, verdict.
  destruct (mjoin (head (sendErrs w))); simpl; eexists; (split; [done|]);
    simpl; by case_decide.
Qed.

Lemma answerRandomWord_absent chatID message w :
  currRandomWord w !! chatID = None →
  answerRandomWord ToLower chatID message w
  = Done ((), logged ("Unknown command [" +:+ message +:+ "].") w).
Proof.
  intros H. unfold answerRandomWord, bind, lookupRandomWord. by rewrite H.
Qed.

End LoopFacts.

Lemma isCommand_false message : isCommand message = false → message ∉ commands.
Proof. unfold isCommand. by rewrite bool_decide_eq_false. Qed.

(** C4. With a word pending for a chat, its next message that is no command
    takes the entry of that chat out of [currRandomWord] (and no other entry),
    whether the answer was right or wrong; a further message of the chat that
    is no command only writes the two log lines, the second one the unknown
    command: nothing is sent and nothing else changes. *)
Theorem answer_consumes_pending_word
    (ToLower : string → string) (chat : Chat) (text1 text2 answer : string) (w : World) :
  isCommand (command text1) = false →
  isCommand (command text2) = false →
  currRandomWord w !! ID chat = Some answer →
  ∃ w1,
    handleUpdate ToLower (says chat text1) w = Done ((), w1)
    ∧ currRandomWord w1 = delete (ID chat) (currRandomWord w)
    ∧ handleUpdate ToLower (says chat text2) w1
      = Done ((), logged ("Unknown command [" +:+ command text2 +:+ "].")
                    (logged (receivedLine (newMessage chat text2)) w1)).
Proof.
  intros H1%isCommand_false H2%isCommand_false Hp.
  unfold says. rewrite handleUpdate_spec. simpl.
  rewrite switchMessage_default by done.
  destruct (answerRandomWord_pending ToLower (ID chat) (command text1) answer
              (logged (receivedLine (newMessage chat text1)) w) Hp)
    as (w1 & Hw1 & _ & Hq & _).
  exists w1. split; [done|]. split; [done|].
  rewrite handleUpdate_spec. simpl.
  rewrite switchMessage_default by done.
  apply answerRandomWord_absent. simpl. rewrite Hq. apply lookup_delete_eq.
Qed.

Lemma answer_consumes_pending_word_witness :
  ∃ w1,
    handleUpdate lowerASCII (says (newChat "u" 7) "Apple") asked7 = Done ((), w1)
    ∧ currRandomWord w1 = delete 7 (currRandomWord asked7)
    ∧ handleUpdate lowerASCII (says (newChat "u" 7) "thanks") w1
      = Done ((), logged "Unknown command [thanks]."
                    (logged "Received message from u[7]: thanks" w1)).
Proof.
  apply (answer_consumes_pending_word lowerASCII (newChat "u" 7) "Apple" "thanks"
           "apple" asked7); reflexivity.
Defined.

(** C10. The answer path does not look at the registration bucket. With a
    word pending for a chat, [/unregister] leaves the pending entry in place,
    and (unless the store fails the commit) leaves the chat unregistered; the
    next message that is no command is then still judged against the pending
    word, the verdict is sent, and the entry is consumed. *)
Theorem answer_judged_after_unregister
    (ToLower : string → string) (chat : Chat) (msg answer : string) (w : World) :
  isCommand (command msg) = false →
  currRandomWord w !! ID chat = Some answer →
  ∃ w1 w2,
    handleUpdate ToLower (says chat "/unregister") w = Done ((), w1)
    ∧ currRandomWord w1 !! ID chat = Some answer
    ∧ (mjoin (head (commitErrs w)) = None → ¬ registered w1 (ID chat))
    ∧ handleUpdate ToLower (says chat msg) w1 = Done ((), w2)
    ∧ sends w2 = sends w1 ++ [verdict ToLower (ID chat) (command msg) answer]
    ∧ currRandomWord w2 !! ID chat = None.
Proof.
  intros Hc%isCommand_false Hp.
  assert (∃ w1, handleUpdate ToLower (says chat "/unregister") w = Done ((), w1)
                ∧ currRandomWord w1 = currRandomWord w
                ∧ (mjoin (head (commitErrs w)) = None → ¬ registered w1 (ID chat)))
    as (w1 & H1 & Hq1 & Hr1).
  { unfold says. rewrite handleUpdate_spec. simpl.
    unfold switchMessage. rewrite decide_False by (by intros [?|?]).
    rewrite decide_True by (by right).
    unfold unregisterUser, bind at 1, telegram.Unregister.
    rewrite bind_IsRegistered.
    destruct (bool_decide_reflect
                (registered (logged (receivedLine (newMessage chat "/unregister")) w)
                   (ID chat))) as [Hr|Hr]; simpl.
    - unfold bind, bbolt.Update, Send, logSendError, Printf, ret; simpl.
      destruct (mjoin (head (commitErrs w))) eqn:Hcommit; simpl;
        destruct (mjoin (head (sendErrs w))); simpl;
        eexists; (split; [done|]); (split; [done|]); try done;
        intros _; unfold registered, bbolt.Delete; simpl;
        rewrite lookup_delete_eq; by intros [? ?].
    - unfold bind, Send, logSendError, Printf, ret; simpl.
      destruct (mjoin (head (sendErrs w))); simpl;
        eexists; (split; [done|]); (split; [done|]); done. }
  assert (currRandomWord (logged (receivedLine (newMessage chat msg)) w1) !! ID chat
          = Some answer) as Hp1 by (simpl; by rewrite Hq1).
  destruct (answerRandomWord_pending ToLower (ID chat) (command msg) answer _ Hp1)
    as (w2 & H2 & Hs2 & Hq2 & _).
  exists w1, w2. split; [done|]. split; [by rewrite Hq1|]. split; [done|].
  split; [|split; [done|]].
  - unfold says. rewrite handleUpdate_spec. simpl.
    by rewrite switchMessage_default.
  - rewrite Hq2. apply lookup_delete_eq.
Qed.

Lemma answer_judged_after_unregister_witness :
  ∃ w1 w2,
    handleUpdate lowerASCII (says (newChat "u" 7) "/unregister") asked7 = Done ((), w1)
    ∧ currRandomWord w1 !! 7 = Some "apple"
    ∧ (mjoin (head (commitErrs asked7)) = None → ¬ registered w1 7)
    ∧ handleUpdate lowerASCII (says (newChat "u" 7) "APPLE") w1 = Done ((), w2)
    ∧ sends w2 = sends w1 ++ [verdict lowerASCII 7 "APPLE" "apple"]
    ∧ currRandomWord w2 !! 7 = None.
Proof.
  apply (answer_judged_after_unregister lowerASCII (newChat "u" 7) "APPLE" "apple"
           asked7); reflexivity.
Defined.

(** It does not hold of a message that is a command: with "apple" pending,
    [/list] is served as the command it is; the reply is the listed word and
    not a verdict. *)
Lemma answer_claim_counterexample : ¬ answer_claim lowerASCII.
Proof.
  intros H.
  specialize (H (newChat "u" 7) "/list" "apple" asked7).
  specialize (H (delivered (NewMessage 7 "sagwa -> apple")
                   (logged "Received message from u[7]: /list" asked7))).
  specialize (H eq_refl eq_refl). vm_compute in H. discriminate H.
Qed.

(** The text after the first space does not reach the comparison either: a
    pending translation of two words is never matched by itself. *)
Example answer_of_two_words :
  ∃ w w',
    serve lowerASCII
      [says (newChat "u" 7) "/start"; says (newChat "u" 7) "/add sagwa red apple";
       says (newChat "u" 7) "/random"] start = Done ((), w)
    ∧ currRandomWord w !! 7 = Some "red apple"
    ∧ handleUpdate lowerASCII (says (newChat "u" 7) "red apple") w = Done ((), w')
    ∧ last (sends w')
      = Some (NewMessage 7 "Your answer is incorrect. Correct answer is red apple.").
Proof. eexists _, _. vm_compute. done. Qed.

Lemma Index_no_space msg : strings.Index msg " " = -1 → command msg = msg.
Proof.
  unfold strings.Index, command.
  destruct (strings.find msg " "); [lia|done].
Qed.

(** C3 (amended). With a word pending for a chat, a next message that has no
    space in it and is none of the command words gets "Your answer is
    correct" when its lower-cased text equals the lower-cased pending word,
    and otherwise the reply that it is incorrect, which gives the pending
    word. *)
Theorem answer_verdict
    (ToLower : string → string) (chat : Chat) (msg answer : string) (w : World) :
  strings.Index msg " " = -1 →
  isCommand msg = false →
  currRandomWord w !! ID chat = Some answer →
  ∃ w',
    handleUpdate ToLower (says chat msg) w = Done ((), w')
    ∧ (ToLower msg = ToLower answer →
       sends w' = sends w ++ [NewMessage (ID chat) "Your answer is correct"])
    ∧ (ToLower msg ≠ ToLower answer →
       sends w' = sends w ++
         [NewMessage (ID chat)
            ("Your answer is incorrect. Correct answer is " +:+ answer +:+ ".")]).
Proof.
  intros Hs%Index_no_space Hc%isCommand_false Hp.
  unfold says. rewrite handleUpdate_spec. simpl. rewrite Hs.
  rewrite switchMessage_default by done.
  destruct (answerRandomWord_pending ToLower (ID chat) msg answer
              (logged (receivedLine (newMessage chat msg)) w) Hp)
    as (w' & Hw' & Hsends & _).
  exists w'. split; [done|]. simpl in Hsends. rewrite Hsends. unfold verdict.
  split; intros H; [by rewrite decide_True|by rewrite decide_False].
Qed.

Lemma answer_verdict_witness :
  ∃ w',
    handleUpdate lowerASCII (says (newChat "u" 7) "Apple") asked7 = Done ((), w')
    ∧ sends w' = sends asked7 ++ [NewMessage 7 "Your answer is correct"].
Proof.
  destruct (answer_verdict lowerASCII (newChat "u" 7) "Apple" "apple" asked7)
    as (w' & H & Hyes & _); [reflexivity..|].
  exists w'. split; [exact H|]. apply Hyes. reflexivity.
Defined.

Section RandomFacts.
Import telegram.

(** The three ways [Random] ends, with the state it leaves. *)
Lemma Random_cases chatID w r w1 :
  Random chatID w = Done (r, w1) →
  (r = Err ErrNotRegistered ∧ w1 = w)
  ∨ (r = Err ErrWordNotFound
     ∧ w1 = logged "Failed to get random word. word not found." w)
  ∨ (∃ word translation,
       r = Ok [word; translation]
       ∧ [word; translation] ∈ listLoop chatID (kquiz w)
       ∧ w1 = drawn w).
Proof.
  destruct (decide (registered w chatID)) as [Hr|Hr].
  - pose proof (List_spec chatID w) as HL.
    rewrite bool_decide_eq_true_2 in HL by done.
    case_decide as Hlen.
    + destruct (Random_List_Err _ _ _ Hr HL) as [w' HR].
      intros H. right; left. rewrite HR in H.
      revert HR. unfold Random. rewrite bind_IsRegistered.
      rewrite bool_decide_eq_true_2 by done. simpl.
      unfold bind at 1. rewrite HL. unfold bind, Printf, ret. simpl.
      intros [= <-]. by injection H as <- <-.
    + assert (listLoop chatID (kquiz w) ≠ []) as Hne
        by (intros E; by rewrite E in Hlen).
      destruct (Random_List_Ok _ _ _ Hr HL Hne) as (item & w' & HR & Hin).
      intros H. right; right. rewrite HR in H. injection H as <- <-.
      destruct (listLoop_pairs _ _ _ Hin) as (word & tr & ->).
      exists word, tr. split; [done|]. split; [done|].
      revert HR. unfold Random. rewrite bind_IsRegistered.
      rewrite bool_decide_eq_true_2 by done. simpl.
      unfold bind at 1. rewrite HL. unfold bind at 1, Intn.
      case_decide; [done|]. unfold bind, index.
      case_decide; [|done]. by destruct (_ !! _); intros [= _ <-].
  - rewrite Random_unregistered by done. intros [= <- <-]. by left.
Qed.

End RandomFacts.

(** C7. The loop at a [/random] message, by the result of its call of
    [Random]: on an error the reply gives the reason and [currRandomWord] is
    as it was before the message; on success the reply asks for the word and
    the translation is stored for the chat. *)
Theorem random_failure_keeps_pending_word
    (ToLower : string → string) (chat : Chat) (msg : string) (w : World)
    (r : res (list string)) (w1 : World) :
  command msg = "/random" →
  telegram.Random (ID chat) (logged (receivedLine (newMessage chat msg)) w)
    = Done (r, w1) →
  ∃ w',
    handleUpdate ToLower (says chat msg) w = Done ((), w')
    ∧ match r with
      | Err e =>
          currRandomWord w' = currRandomWord w
          ∧ sends w' = sends w ++
              [NewMessage (ID chat) ("Get random word failed. " +:+ Error e +:+ ".")]
      | Ok words =>
          ∃ word translation,
            words = [word; translation]
            ∧ currRandomWord w' = <[ID chat := translation]> (currRandomWord w)
            ∧ sends w' = sends w ++
                [NewMessage (ID chat) ("What is translation for: " +:+ word)]
      end.
Proof.
  intros Hc HR. unfold says. rewrite handleUpdate_spec. simpl. rewrite Hc.
  change (switchMessage ToLower (ID chat) "/random" (argument msg))
    with (do words <- randomWord (ID chat);
          match words with
          | Some words => do w1 <- index words 1; storeRandomWord (ID chat) w1
          | None => ret ()
          end).
  unfold bind at 1, randomWord, bind at 1. rewrite HR.
  destruct (Random_cases _ _ _ _ HR) as [[-> ->]|[[-> ->]|(word & tr & -> & _ & ->)]];
    unfold bind, ret, Send, logSendError, index, storeRandomWord; simpl.
  - destruct (mjoin (head (sendErrs w))); simpl; eexists; (split; [done|]); done.
  - destruct (mjoin (head (sendErrs w))); simpl; eexists; (split; [done|]); done.
  - destruct (mjoin (head (sendErrs w))); simpl; eexists; (split; [done|]);
      by exists word, tr.
Qed.

Lemma random_failure_keeps_pending_word_witness :
  ∃ w',
    handleUpdate lowerASCII (says (newChat "u" 9) "/random") asked7 = Done ((), w')
    ∧ currRandomWord w' = currRandomWord asked7
    ∧ sends w' = sends asked7 ++
        [NewMessage 9 ("Get random word failed. " +:+ Error ErrNotRegistered +:+ ".")].
Proof.
  apply (random_failure_keeps_pending_word lowerASCII (newChat "u" 9) "/random" asked7
           (Err ErrNotRegistered)
           (logged "Received message from u[9]: /random" asked7));
    reflexivity.
Defined.

Section AddCommandFacts.
Variable ToLower : string → string.

Lemma addWord_sends chatID word translation w :
  ∃ w' msg, addWord chatID word translation w = Done ((), w')
            ∧ sends w' = sends w ++ [msg] ∧ msg ≠ addUsage chatID.
Proof.
  unfold addWord, bind at 1, telegram.Add. rewrite bind_IsRegistered.
  destruct (bool_decide (registered w chatID)); simpl.
  - rewrite bind_IsAdded.
    destruct (bool_decide (is_Some (kquiz w !! telegram.wordKey chatID word))); simpl.
    + unfold bind, Send, logSendError, Printf, ret.
      destruct (mjoin (head (sendErrs w))); simpl; eexists _, _;
        (split; [done|]); (split; [done|]); by intros [=].
    + unfold bind, bbolt.Update, bbolt.Put, Send, logSendError, Printf, ret.
      repeat case_decide; simpl;
        try (destruct (mjoin (head (commitErrs w))); simpl);
        destruct (mjoin (head (sendErrs w))); simpl; eexists _, _;
        (split; [done|]); (split; [done|]); by intros [=].
  - unfold bind, Send, logSendError, Printf, ret.
    destruct (mjoin (head (sendErrs w))); simpl; eexists _, _;
      (split; [done|]); (split; [done|]); by intros [=].
Qed.

Lemma SplitN_first_space arg i :
  strings.find arg " " = Some i →
  strings.SplitN arg " " 2 = [strings.take i arg; strings.drop (S i) arg].
Proof.
  intros H. unfold strings.SplitN. simpl. rewrite H. simpl.
  by rewrite Nat.add_1_r.
Qed.

Lemma switchMessage_add chatID arg :
  switchMessage ToLower chatID "/add" arg
  = if decide (strings.len arg = 0 ∨ strings.Index arg " " = -1) then
      do err <- Send (addUsage chatID);
      logSendError "Failed to send response." err
    else
      let splitted := strings.SplitN arg " " 2 in
      do word <- index splitted 0;
      do translation <- index splitted 1;
      addWord chatID word translation.
Proof. reflexivity. Qed.

End AddCommandFacts.

Lemma add_claim_counterexample : ¬ add_claim lowerASCII.
Proof.
  intros H. specialize (H (newChat "u" 7) addOnTwoLines start eq_refl).
  change (hasWhiteSpace (argument addOnTwoLines)) with true in H.
  destruct H as (word & c & translation & _ & _ & _ & H).
  destruct (addWord_sends 7 word translation
              (logged (receivedLine (newMessage (newChat "u" 7) addOnTwoLines)) start))
    as (w' & m & Hw' & Hs & Hm).
  simpl in H, Hw'. rewrite Hw' in H. injection H as <-.
  apply Hm. simpl in Hs. by injection Hs as <-.
Qed.

(** C8 (amended). At a message whose part before the first space is [/add]:
    when the argument is empty or has no space in it, the usage prompt is
    sent and the store is not touched; otherwise the argument is cut at its
    first space, and [Add] is called (through [addWord]) with the part before
    it, which has no space, as the word, and all that follows it as the
    translation. *)
Theorem add_splits_at_first_space
    (ToLower : string → string) (chat : Chat) (msg : string) (w : World) :
  command msg = "/add" →
  (strings.len (argument msg) = 0 ∨ strings.Index (argument msg) " " = -1 →
   ∃ w',
     handleUpdate ToLower (says chat msg) w = Done ((), w')
     ∧ sends w' = sends w ++ [addUsage (ID chat)]
     ∧ telegram w' = telegram w ∧ kquiz w' = kquiz w
     ∧ commitErrs w' = commitErrs w)
  ∧ (¬ (strings.len (argument msg) = 0 ∨ strings.Index (argument msg) " " = -1) →
     ∃ word translation,
       argument msg = word +:+ " " +:+ translation
       ∧ strings.Index word " " = -1
       ∧ handleUpdate ToLower (says chat msg) w
         = addWord (ID chat) word translation
             (logged (receivedLine (newMessage chat msg)) w)).
Proof.
  intros Hc. unfold says. rewrite handleUpdate_spec. simpl. rewrite Hc.
  rewrite switchMessage_add. split; intros H.
  - rewrite decide_True by done.
    unfold bind, Send, logSendError, Printf, ret. simpl.
    destruct (mjoin (head (sendErrs w))); simpl; eexists; (split; [done|]); done.
  - rewrite decide_False by done.
    assert (∃ i, strings.find (argument msg) " " = Some i) as [i Hi].
    { unfold strings.Index in H. destruct (strings.find (argument msg) " ");
        [by eexists|]. exfalso. apply H. by right. }
    destruct (find_split _ _ _ Hi) as [Hsplit Hfree].
    exists (strings.take i (argument msg)), (strings.drop (S i) (argument msg)).
    split; [done|]. split; [unfold strings.Index; by rewrite Hfree|].
    simpl. by rewrite (SplitN_first_space _ _ Hi).
Qed.

Lemma add_splits_at_first_space_witness :
  ∃ word translation,
    argument "/add sagwa red apple" = word +:+ " " +:+ translation
    ∧ strings.Index word " " = -1
    ∧ handleUpdate lowerASCII (says (newChat "u" 7) "/add sagwa red apple") asked7
      = addWord 7 word translation
          (logged (receivedLine (newMessage (newChat "u" 7) "/add sagwa red apple"))
             asked7).
Proof.
  apply (add_splits_at_first_space lowerASCII (newChat "u" 7) "/add sagwa red apple"
           asked7); [reflexivity|].
  vm_compute. intros [H|H]; discriminate H.
Defined.

(** ** [Clear] and [List] over a shared bucket *)

Section ClearFacts.
Import telegram.

Lemma clear_foldl (p : string) (l : list (string * string))
    (acc : gmap string string) (k : string) :
  foldl (λ acc kv,
           let keyStr := kv.1 in
           if negb (strings.HasPrefix keyStr p) then acc
           else bbolt.Delete acc keyStr) acc l !! k
  = if decide (strings.HasPrefix k p = true ∧ k ∈ l.*1) then None else acc !! k.
Proof.
  revert acc. induction l as [|kv l IH]; intros acc; simpl.
  - rewrite decide_False; [done|]. intros [_ H]. by apply not_elem_of_nil in H.
  - rewrite IH. clear IH. unfold bbolt.Delete.
    destruct (decide (k = kv.1)) as [->|Hne].
    + destruct (strings.HasPrefix kv.1 p) eqn:E; simpl; repeat case_decide;
        try done; try (by rewrite lookup_delete_eq);
        exfalso; rewrite elem_of_cons in *; tauto.
    + destruct (strings.HasPrefix kv.1 p) eqn:E; simpl; repeat case_decide;
        try done; try (by rewrite lookup_delete_ne);
        exfalso; rewrite elem_of_cons in *; tauto.
Qed.

Lemma elem_of_Cursor_keys (b : gmap string string) (k : string) :
  k ∈ (bbolt.Cursor b).*1 ↔ is_Some (b !! k).
Proof.
  unfold bbolt.Cursor. rewrite merge_sort_Permutation.
  rewrite list_elem_of_fmap. split.
  - intros ([k' v] & -> & H%elem_of_map_to_list). by eexists.
  - intros [v H]. exists (k, v). split; [done|]. by apply elem_of_map_to_list.
Qed.

(** The loop of [Clear] takes out the keys that start with the decimal form
    of the chat, whoever added them, and no other key. *)
Lemma clearLoop_lookup (p : string) (b : gmap string string) (k : string) :
  clearLoop p b !! k = if strings.HasPrefix k p then None else b !! k.
Proof.
  unfold clearLoop. rewrite clear_foldl.
  destruct (strings.HasPrefix k p) eqn:E.
  - case_decide as H; [done|]. apply eq_None_not_Some.
    intros Hs. apply H. split; [done|]. by apply elem_of_Cursor_keys.
  - rewrite decide_False; [done|]. by intros [? _].
Qed.

Lemma Clear_success chatID w w' :
  Clear chatID w = Done (None, w') →
  telegram w' = telegram w ∧ kquiz w' = clearLoop (chatKey chatID) (kquiz w).
Proof.
  unfold Clear. rewrite bind_IsRegistered.
  destruct (bool_decide (registered w chatID)); simpl; [|done].
  unfold bind, bbolt.Update; simpl.
  destruct (mjoin (head (commitErrs w))); simpl; [done|].
  by intros [= <-].
Qed.

(** Every word of the clearing chat is gone after a [Clear] that returned
    nil. *)
Lemma Clear_removes_own chatID word w w' :
  Clear chatID w = Done (None, w') → kquiz w' !! wordKey chatID word = None.
Proof.
  intros [_ ->]%Clear_success. rewrite clearLoop_lookup.
  unfold wordKey, chatKey. by rewrite HasPrefix_app.
Qed.

(** The words of a chat whose decimal form neither starts with the one of
    the clearing chat nor is the start of it are kept. *)
Lemma Clear_keeps_unrelated chatID other word w w' :
  Clear chatID w = Done (None, w') →
  strings.HasPrefix (chatKey other) (chatKey chatID) = false →
  strings.HasPrefix (chatKey chatID) (chatKey other) = false →
  kquiz w' !! wordKey other word = kquiz w !! wordKey other word.
Proof.
  intros [_ ->]%Clear_success H1 H2. rewrite clearLoop_lookup.
  destruct (strings.HasPrefix (wordKey other word) (chatKey chatID)) eqn:E; [|done].
  unfold wordKey in E. apply HasPrefix_app_inv in E as [E|E]; unfold chatKey in *;
    congruence.
Qed.

(** Every entry under a key of the chat comes back from [List], with the
    word [ReplaceAll] makes of the key. *)
Lemma List_returns_entry chatID word translation w :
  registered w chatID →
  kquiz w !! wordKey chatID word = Some translation →
  ∃ items,
    List chatID w = Done (Ok items, w)
    ∧ [strings.ReplaceAll (wordKey chatID word) (chatKey chatID) EmptyString; translation]
      ∈ items.
Proof.
  intros Hr Hk.
  assert ([strings.ReplaceAll (wordKey chatID word) (chatKey chatID) EmptyString; translation]
          ∈ listLoop chatID (kquiz w)) as Hin.
  { rewrite listLoop_spec. apply list_elem_of_fmap.
    exists (wordKey chatID word, translation). split; [done|].
    apply list_elem_of_filter. split.
    - simpl. unfold wordKey, chatKey. by rewrite HasPrefix_app.
    - unfold bbolt.Cursor. rewrite merge_sort_Permutation.
      by apply elem_of_map_to_list. }
  exists (listLoop chatID (kquiz w)). split; [|done].
  rewrite List_spec, bool_decide_eq_true_2 by done.
  case_decide as Hlen; [|done].
  destruct (listLoop chatID (kquiz w)); [by apply not_elem_of_nil in Hin|done].
Qed.

End ClearFacts.

(** C1 (the code at the failing input). Chats 1 and 12 are registered and
    chat 12 owns the word "mul"; [Clear] for chat 1 returns nil and the word
    of chat 12 is gone with the one of chat 1: the key "12mul" starts with
    "1". *)
Theorem Clear_removes_words_of_other_chat :
  registered sharedStore 1 ∧ registered sharedStore 12
  ∧ kquiz sharedStore !! telegram.wordKey 12 "mul" = Some "water"
  ∧ ∃ w', telegram.Clear 1 sharedStore = Done (None, w')
          ∧ kquiz w' !! telegram.wordKey 1 "sagwa" = None
          ∧ kquiz w' !! telegram.wordKey 12 "mul" = None.
Proof.
  split; [by eexists|]. split; [by eexists|]. split; [done|].
  eexists. split; [reflexivity|]. split; reflexivity.
Qed.

(** The same through the loop, from a fresh database. *)
Example clear_through_the_loop :
  ∃ w, serve lowerASCII
         [says (newChat "a" 1) "/start"; says (newChat "b" 12) "/start";
          says (newChat "b" 12) "/add mul water"; says (newChat "a" 1) "/clear";
          says (newChat "b" 12) "/search mul"] start = Done ((), w)
       ∧ last (sends w) = Some (NewMessage 12 "Search word failed. word not found.").
Proof. eexists. vm_compute. done. Qed.

(** C2 (the code at the failing input). Chat 1 is registered and adds the
    word "a1b" with the translation "x"; [List] then returns one pair, whose
    word is "ab": every "1" of the key was taken out, not only the leading
    one. *)
Theorem List_loses_digits_of_word :
  ∃ w1, telegram.Add 1 "a1b" "x" registered1 = Done (None, w1)
        ∧ telegram.List 1 w1 = Done (Ok [["ab"; "x"]], w1).
Proof. eexists. split; reflexivity. Qed.

(** [List] for chat 1 also returns the word of chat 12, and so one pair more
    than chat 1 has added. *)
Example List_returns_words_of_other_chat :
  telegram.List 1 sharedStore
  = Done (Ok [["2mul"; "water"]; ["sagwa"; "apple"]], sharedStore).
Proof. reflexivity. Qed.

(** * More of the code *)

(** ** Registration *)

Section RegistrationFacts.
Import telegram.

Lemma chatKey_inj chatID other : chatKey chatID = chatKey other → chatID = other.
Proof. unfold chatKey. apply pretty_Z_inj. Qed.

(** What a successful [Register] leaves behind. *)
Lemma Register_success chatID w w1 :
  Register chatID w = Done (None, w1) →
  ¬ registered w chatID
  ∧ telegram w1 = <[chatKey chatID := chatKey chatID]> (telegram w)
  ∧ kquiz w1 = kquiz w
  ∧ currRandomWord w1 = currRandomWord w.
Proof.
  unfold Register. rewrite bind_IsRegistered.
  destruct (bool_decide_reflect (registered w chatID)) as [Hr|Hr]; simpl; [done|].
  unfold bind, bbolt.Update, bbolt.Put; simpl.
  repeat case_decide; simpl; try done.
  destruct (mjoin (head (commitErrs w))); simpl; [done|].
  by intros [= <-].
Qed.

Lemma Unregister_success chatID w w1 :
  Unregister chatID w = Done (None, w1) →
  registered w chatID
  ∧ telegram w1 = delete (chatKey chatID) (telegram w)
  ∧ kquiz w1 = kquiz w
  ∧ currRandomWord w1 = currRandomWord w.
Proof.
  unfold Unregister. rewrite bind_IsRegistered.
  destruct (bool_decide_reflect (registered w chatID)) as [Hr|Hr]; simpl; [|done].
  unfold bind, bbolt.Update; simpl.
  destruct (mjoin (head (commitErrs w))); simpl; [done|].
  by intros [= <-].
Qed.

Lemma Register_registered chatID w :
  registered w chatID → Register chatID w = Done (Some ErrAlreadyRegistered, w).
Proof.
  intros H. unfold Register. rewrite bind_IsRegistered.
  by rewrite bool_decide_eq_true_2.
Qed.

Lemma Unregister_unregistered chatID w :
  ¬ registered w chatID → Unregister chatID w = Done (Some ErrNotRegistered, w).
Proof.
  intros H. unfold Unregister. rewrite bind_IsRegistered.
  by rewrite bool_decide_eq_false_2.
Qed.

(** The registration bucket after [Register] and after [Unregister],
    whatever they return: at most the key of the chat has changed. *)
Lemma Register_bucket chatID w e w1 :
  Register chatID w = Done (e, w1) →
  ∀ key, key ≠ chatKey chatID → telegram w1 !! key = telegram w !! key.
Proof.
  unfold Register. rewrite bind_IsRegistered.
  destruct (bool_decide (registered w chatID)); simpl; [by intros [= <- <-]|].
  unfold bind, bbolt.Update, bbolt.Put; simpl.
  repeat case_decide; simpl; try (by intros [= <- <-]).
  destruct (mjoin (head (commitErrs w))); simpl; intros [= <- <-]; simpl; [done|].
  intros key Hkey. by rewrite lookup_insert_ne.
Qed.

Lemma Unregister_bucket chatID w e w1 :
  Unregister chatID w = Done (e, w1) →
  ∀ key, key ≠ chatKey chatID → telegram w1 !! key = telegram w !! key.
Proof.
  unfold Unregister. rewrite bind_IsRegistered.
  destruct (bool_decide (registered w chatID)); simpl; [|by intros [= <- <-]].
  unfold bind, bbolt.Update, bbolt.Delete; simpl.
  destruct (mjoin (head (commitErrs w))); simpl; intros [= <- <-]; simpl; [done|].
  intros key Hkey. by rewrite lookup_delete_ne.
Qed.

End RegistrationFacts.

(** X1. After a [Register] that returned nil the chat is a registrant, and a
    second [Register] for it fails with [ErrAlreadyRegistered] and leaves the
    state as it is. *)
Theorem Register_twice_AlreadyRegistered (chatID : Z) (w w1 : World) :
  telegram.Register chatID w = Done (None, w1) →
  registered w1 chatID
  ∧ telegram.Register chatID w1 = Done (Some ErrAlreadyRegistered, w1).
Proof.
  intros (_ & Ht & _)%Register_success.
  assert (registered w1 chatID) as Hr.
  { unfold registered. rewrite Ht, lookup_insert_eq. by eexists. }
  split; [done|]. by apply Register_registered.
Qed.

Lemma Register_twice_AlreadyRegistered_witness :
  registered registered42 42
  ∧ telegram.Register 42 registered42 = Done (Some ErrAlreadyRegistered, registered42).
Proof.
  apply (Register_twice_AlreadyRegistered 42 start registered42). reflexivity.
Defined.

(** X2. [Register] and [Unregister] for one chat, whatever they return,
    leave every other chat as registered or unregistered as it was: the
    decimal forms of two different identities are different keys. *)
Theorem registration_of_other_chat_untouched
    (chatID other : Z) (w : World) (e : option error) (w1 : World) :
  chatID ≠ other →
  telegram.Register chatID w = Done (e, w1)
  ∨ telegram.Unregister chatID w = Done (e, w1) →
  (registered w1 other ↔ registered w other).
Proof.
  intros Hne H. unfold registered.
  assert (telegram.chatKey other ≠ telegram.chatKey chatID) as Hk
    by (intros E%chatKey_inj; congruence).
  destruct H as [H|H].
  - by rewrite (Register_bucket _ _ _ _ H _ Hk).
  - by rewrite (Unregister_bucket _ _ _ _ H _ Hk).
Qed.

Lemma registration_of_other_chat_untouched_witness :
  registered registered42 12 ↔ registered start 12.
Proof.
  apply (registration_of_other_chat_untouched 42 12 start None registered42).
  - lia.
  - left. reflexivity.
Defined.

(** X3. [Unregister] undoes [Register]: when both return nil the two
    buckets are as before the registration, and a further [Unregister] fails
    with [ErrNotRegistered]. *)
Theorem Register_Unregister_round_trip (chatID : Z) (w w1 w2 : World) :
  telegram.Register chatID w = Done (None, w1) →
  telegram.Unregister chatID w1 = Done (None, w2) →
  telegram w2 = telegram w ∧ kquiz w2 = kquiz w
  ∧ telegram.Unregister chatID w2 = Done (Some ErrNotRegistered, w2).
Proof.
  intros (Hn & Ht1 & Hk1 & _)%Register_success (_ & Ht2 & Hk2 & _)%Unregister_success.
  assert (telegram w2 = telegram w) as Ht.
  { rewrite Ht2, Ht1, delete_insert_eq. apply delete_id.
    by apply eq_None_not_Some. }
  split; [done|]. split; [congruence|].
  apply Unregister_unregistered. unfold registered in *. by rewrite Ht.
Qed.

Lemma Register_Unregister_round_trip_witness :
  ∃ w1 w2,
    telegram.Register 42 start = Done (None, w1)
    ∧ telegram.Unregister 42 w1 = Done (None, w2)
    ∧ telegram w2 = telegram start ∧ kquiz w2 = kquiz start
    ∧ telegram.Unregister 42 w2 = Done (Some ErrNotRegistered, w2).
Proof.
  eexists _, _. split; [reflexivity|]. split; [reflexivity|].
  apply (Register_Unregister_round_trip 42 start registered42); reflexivity.
Defined.

(** ** Words *)

Section WordFacts.
Import telegram.

Lemma wordKey_inj chatID word word' :
  wordKey chatID word = wordKey chatID word' → word = word'.
Proof. unfold wordKey. apply (inj (String.app _)). Qed.

(** [Search] in its three cases. *)
Lemma Search_unregistered chatID word w :
  ¬ registered w chatID → Search chatID word w = Done (Err ErrNotRegistered, w).
Proof.
  intros H. unfold Search. rewrite bind_IsRegistered.
  by rewrite bool_decide_eq_false_2.
Qed.

Lemma Search_found chatID word translation w :
  registered w chatID → kquiz w !! wordKey chatID word = Some translation →
  Search chatID word w = Done (Ok translation, w).
Proof.
  intros Hr Hk. unfold Search. rewrite bind_IsRegistered.
  rewrite bool_decide_eq_true_2 by done. simpl.
  unfold bind, bbolt.View, bbolt.Get; simpl. by rewrite Hk.
Qed.

Lemma Search_absent chatID word w :
  registered w chatID → kquiz w !! wordKey chatID word = None →
  Search chatID word w
  = Done (Err ErrWordNotFound, logged "Failed to get word. word not found." w).
Proof.
  intros Hr Hk. unfold Search. rewrite bind_IsRegistered.
  rewrite bool_decide_eq_true_2 by done. simpl.
  unfold bind, bbolt.View, bbolt.Get; simpl. by rewrite Hk.
Qed.

(** What a successful [Delete] leaves behind. *)
Lemma Delete_success chatID word w w1 :
  Delete chatID word w = Done (None, w1) →
  registered w chatID
  ∧ is_Some (kquiz w !! wordKey chatID word)
  ∧ telegram w1 = telegram w
  ∧ kquiz w1 = delete (wordKey chatID word) (kquiz w).
Proof.
  unfold Delete. rewrite bind_IsRegistered.
  destruct (bool_decide_reflect (registered w chatID)) as [Hr|Hr]; simpl; [|done].
  rewrite bind_IsAdded.
  destruct (bool_decide_reflect (is_Some (kquiz w !! wordKey chatID word)))
    as [Ha|Ha]; simpl; [|done].
  unfold bind, bbolt.Update; simpl.
  destruct (mjoin (head (commitErrs w))); simpl; [done|].
  by intros [= <-].
Qed.

Lemma Delete_absent chatID word w :
  registered w chatID → kquiz w !! wordKey chatID word = None →
  Delete chatID word w = Done (Some ErrWordNotFound, w).
Proof.
  intros Hr Hk. unfold Delete. rewrite bind_IsRegistered.
  rewrite bool_decide_eq_true_2 by done. simpl.
  rewrite bind_IsAdded, bool_decide_eq_false_2; [done|].
  rewrite Hk. by intros [? ?].
Qed.

Lemma registered_same_bucket w w1 chatID :
  telegram w1 = telegram w → registered w chatID → registered w1 chatID.
Proof. unfold registered. by intros ->. Qed.

(** A write that returns an error has changed neither bucket. *)
Lemma Register_failed chatID w e w1 :
  Register chatID w = Done (Some e, w1) → telegram w1 = telegram w ∧ kquiz w1 = kquiz w.
Proof.
  unfold Register. rewrite bind_IsRegistered.
  destruct (bool_decide (registered w chatID)); simpl; [by intros [= <- <-]|].
  unfold bind, bbolt.Update, bbolt.Put; simpl.
  repeat case_decide; simpl; try (by intros [= <- <-]).
  destruct (mjoin (head (commitErrs w))); simpl; [|done]. by intros [= <- <-].
Qed.

Lemma Unregister_failed chatID w e w1 :
  Unregister chatID w = Done (Some e, w1) → telegram w1 = telegram w ∧ kquiz w1 = kquiz w.
Proof.
  unfold Unregister. rewrite bind_IsRegistered.
  destruct (bool_decide (registered w chatID)); simpl; [|by intros [= <- <-]].
  unfold bind, bbolt.Update; simpl.
  destruct (mjoin (head (commitErrs w))); simpl; [|done]. by intros [= <- <-].
Qed.

Lemma Add_failed chatID word translation w e w1 :
  Add chatID word translation w = Done (Some e, w1) →
  telegram w1 = telegram w ∧ kquiz w1 = kquiz w.
Proof.
  unfold Add. rewrite bind_IsRegistered.
  destruct (bool_decide (registered w chatID)); simpl; [|by intros [= <- <-]].
  rewrite bind_IsAdded.
  destruct (bool_decide (is_Some (kquiz w !! wordKey chatID word))); simpl;
    [by intros [= <- <-]|].
  unfold bind, bbolt.Update, bbolt.Put; simpl.
  repeat case_decide; simpl; try (by intros [= <- <-]).
  destruct (mjoin (head (commitErrs w))); simpl; [|done]. by intros [= <- <-].
Qed.

Lemma Delete_failed chatID word w e w1 :
  Delete chatID word w = Done (Some e, w1) →
  telegram w1 = telegram w ∧ kquiz w1 = kquiz w.
Proof.
  unfold Delete. rewrite bind_IsRegistered.
  destruct (bool_decide (registered w chatID)); simpl; [|by intros [= <- <-]].
  rewrite bind_IsAdded.
  destruct (bool_decide (is_Some (kquiz w !! wordKey chatID word))); simpl;
    [|by intros [= <- <-]].
  unfold bind, bbolt.Update; simpl.
  destruct (mjoin (head (commitErrs w))); simpl; [|done]. by intros [= <- <-].
Qed.

Lemma Clear_failed chatID w e w1 :
  Clear chatID w = Done (Some e, w1) → telegram w1 = telegram w ∧ kquiz w1 = kquiz w.
Proof.
  unfold Clear. rewrite bind_IsRegistered.
  destruct (bool_decide (registered w chatID)); simpl; [|by intros [= <- <-]].
  unfold bind, bbolt.Update; simpl.
  destruct (mjoin (head (commitErrs w))); simpl; [|done]. by intros [= <- <-].
Qed.

Lemma Clear_registered chatID w w1 :
  Clear chatID w = Done (None, w1) → registered w chatID.
Proof.
  unfold Clear. rewrite bind_IsRegistered.
  by destruct (bool_decide_reflect (registered w chatID)).
Qed.

End WordFacts.

(** X4. A word that [Add] has stored is found by [Search], with the
    translation it was added with. *)
Theorem Add_then_Search (chatID : Z) (word translation : string) (w w1 : World) :
  telegram.Add chatID word translation w = Done (None, w1) →
  telegram.Search chatID word w1 = Done (Ok translation, w1).
Proof.
  intros (Hr & _ & Ht & Hk)%Add_success.
  apply Search_found; [by eapply registered_same_bucket|].
  by rewrite Hk, lookup_insert_eq.
Qed.

Lemma Add_then_Search_witness :
  ∃ w1, telegram.Add 42 "sagwa" "apple" registered42 = Done (None, w1)
        ∧ telegram.Search 42 "sagwa" w1 = Done (Ok "apple", w1).
Proof.
  eexists. split; [reflexivity|].
  apply (Add_then_Search 42 "sagwa" "apple" registered42). reflexivity.
Defined.

(** X5. After a [Delete] that returned nil the word is gone: [Search] for it
    fails with [ErrWordNotFound], and so does a second [Delete]. *)
Theorem Delete_then_WordNotFound (chatID : Z) (word : string) (w w1 : World) :
  telegram.Delete chatID word w = Done (None, w1) →
  telegram.Search chatID word w1
  = Done (Err ErrWordNotFound, logged "Failed to get word. word not found." w1)
  ∧ telegram.Delete chatID word w1 = Done (Some ErrWordNotFound, w1).
Proof.
  intros (Hr & _ & Ht & Hk)%Delete_success.
  assert (registered w1 chatID) by (by eapply registered_same_bucket).
  assert (kquiz w1 !! telegram.wordKey chatID word = None)
    by (by rewrite Hk, lookup_delete_eq).
  split; [by apply Search_absent|by apply Delete_absent].
Qed.

Lemma Delete_then_WordNotFound_witness :
  ∃ w1, telegram.Delete 7 "sagwa" asked7 = Done (None, w1)
        ∧ telegram.Delete 7 "sagwa" w1 = Done (Some ErrWordNotFound, w1).
Proof.
  eexists. split; [reflexivity|].
  apply (Delete_then_WordNotFound 7 "sagwa" asked7). reflexivity.
Defined.

(** X6. [Delete] undoes [Add]: when both return nil the two buckets are as
    before the word was added. *)
Theorem Add_Delete_round_trip
    (chatID : Z) (word translation : string) (w w1 w2 : World) :
  telegram.Add chatID word translation w = Done (None, w1) →
  telegram.Delete chatID word w1 = Done (None, w2) →
  telegram w2 = telegram w ∧ kquiz w2 = kquiz w.
Proof.
  intros (_ & Hn & Ht1 & Hk1)%Add_success (_ & _ & Ht2 & Hk2)%Delete_success.
  split; [congruence|].
  rewrite Hk2, Hk1, delete_insert_eq. by apply delete_id.
Qed.

Lemma Add_Delete_round_trip_witness :
  ∃ w1 w2, telegram.Add 42 "sagwa" "apple" registered42 = Done (None, w1)
           ∧ telegram.Delete 42 "sagwa" w1 = Done (None, w2)
           ∧ kquiz w2 = kquiz registered42.
Proof.
  eexists _, _. split; [reflexivity|]. split; [reflexivity|].
  eapply (Add_Delete_round_trip 42 "sagwa" "apple" registered42); reflexivity.
Defined.

(** X7. [Add] and [Delete] of one word, whatever they return, leave every
    other word of the same chat with the translation it had. *)
Theorem other_words_of_chat_untouched
    (chatID : Z) (word translation other : string) (w : World)
    (e : option error) (w1 : World) :
  other ≠ word →
  telegram.Add chatID word translation w = Done (e, w1)
  ∨ telegram.Delete chatID word w = Done (e, w1) →
  kquiz w1 !! telegram.wordKey chatID other = kquiz w !! telegram.wordKey chatID other.
Proof.
  intros Hne H.
  assert (telegram.wordKey chatID word ≠ telegram.wordKey chatID other) as Hk
    by (intros E%wordKey_inj; congruence).
  destruct e as [e|], H as [H|H].
  - apply Add_failed in H as [_ ->]. done.
  - apply Delete_failed in H as [_ ->]. done.
  - apply Add_success in H as (_ & _ & _ & ->). by rewrite lookup_insert_ne.
  - apply Delete_success in H as (_ & _ & _ & ->). by rewrite lookup_delete_ne.
Qed.

Lemma other_words_of_chat_untouched_witness :
  ∃ w1, telegram.Delete 42 "mul" twoWords42 = Done (None, w1)
        ∧ kquiz w1 !! telegram.wordKey 42 "sagwa" = Some "apple".
Proof.
  eexists. split; [reflexivity|].
  rewrite (other_words_of_chat_untouched 42 "mul" EmptyString "sagwa" twoWords42 None _);
    [reflexivity|discriminate|right; reflexivity].
Defined.

(** X8. A write of the handler that returns an error, whichever, has
    changed neither bucket. *)
Theorem failed_write_keeps_buckets
    (chatID : Z) (word translation : string) (w : World) (e : error) (w1 : World) :
  telegram.Register chatID w = Done (Some e, w1)
  ∨ telegram.Unregister chatID w = Done (Some e, w1)
  ∨ telegram.Add chatID word translation w = Done (Some e, w1)
  ∨ telegram.Delete chatID word w = Done (Some e, w1)
  ∨ telegram.Clear chatID w = Done (Some e, w1) →
  telegram w1 = telegram w ∧ kquiz w1 = kquiz w.
Proof.
  intros [H|[H|[H|[H|H]]]];
    eauto using Register_failed, Unregister_failed, Add_failed, Delete_failed,
      Clear_failed.
Qed.

Lemma failed_write_keeps_buckets_witness :
  ∃ w1, telegram.Clear 42 failingStore = Done (Some ErrDatabaseError, w1)
        ∧ kquiz w1 = kquiz failingStore.
Proof.
  eexists. split; [reflexivity|].
  eapply (failed_write_keeps_buckets 42 EmptyString EmptyString failingStore ErrDatabaseError).
  do 4 right. reflexivity.
Defined.

Section ListRoundTrip.
Import telegram strings.

Lemma replaceFrom_skip old new a s :
  replaceFrom old new (String.length a) (a +:+ s) = replaceFrom old new 0 s.
Proof. induction a as [|c a IH]; [done|]. by rewrite app_cons. Qed.

(** Nothing is replaced in a text in which [old] does not occur. *)
Lemma replaceFrom_absent old new s :
  find s old = None → replaceFrom old new 0 s = s.
Proof.
  induction s as [|c s IH]; [done|]. simpl.
  destruct (HasPrefix (String c s) old); [done|].
  destruct (find s old) eqn:E; [done|]. intros _. by rewrite IH.
Qed.

(** Taking the chat out of a key of the chat gives the word back when the
    decimal form of the chat does not occur in the word. *)
Lemma ReplaceAll_wordKey p word :
  find word p = None → ReplaceAll (p +:+ word) p EmptyString = word.
Proof.
  intros H. destruct p as [|c p].
  - by destruct word.
  - unfold ReplaceAll. rewrite app_cons. simpl.
    rewrite decide_True by done.
    pose proof (HasPrefix_app p word) as ->.
    rewrite Nat.sub_0_r, replaceFrom_skip. by apply replaceFrom_absent.
Qed.

Lemma listLoop_nil_iff chatID (b : gmap string string) :
  listLoop chatID b = []
  ↔ ∀ key, is_Some (b !! key) → HasPrefix key (chatKey chatID) = false.
Proof.
  rewrite listLoop_spec. split.
  - intros Hnil%fmap_nil_inv key [v Hv].
    destruct (HasPrefix key (chatKey chatID)) eqn:E; [|done].
    exfalso. eapply (filter_nil_not_elem_of _ _ (key, v) Hnil).
    + simpl. by rewrite E.
    + unfold bbolt.Cursor. rewrite merge_sort_Permutation.
      by apply elem_of_map_to_list.
  - intros H.
    destruct (filter (λ kv : string * string, HasPrefix kv.1 (chatKey chatID))
                (bbolt.Cursor b)) as [|[key v] l] eqn:E; [done|exfalso].
    assert ((key, v) ∈ filter (λ kv : string * string, HasPrefix kv.1 (chatKey chatID))
                         (bbolt.Cursor b)) as [Hp Hin]%list_elem_of_filter
      by (rewrite E; left).
    unfold bbolt.Cursor in Hin. rewrite merge_sort_Permutation in Hin.
    apply elem_of_map_to_list in Hin. simpl in Hp.
    rewrite (H key) in Hp; [done|by eexists].
Qed.

End ListRoundTrip.

(** X9. A word in which the decimal form of the chat does not occur comes
    back from [List] as it was added, with its translation. *)
Theorem List_round_trip (chatID : Z) (word translation : string) (w : World) :
  registered w chatID →
  kquiz w !! telegram.wordKey chatID word = Some translation →
  strings.find word (telegram.chatKey chatID) = None →
  ∃ items, telegram.List chatID w = Done (Ok items, w) ∧ [word; translation] ∈ items.
Proof.
  intros Hr Hk Hfree.
  destruct (List_returns_entry chatID word translation w Hr Hk) as (items & HL & Hin).
  exists items. split; [done|].
  unfold telegram.wordKey in Hin. by rewrite ReplaceAll_wordKey in Hin.
Qed.

Lemma List_round_trip_witness :
  ∃ items, telegram.List 42 twoWords42 = Done (Ok items, twoWords42)
           ∧ ["sagwa"; "apple"] ∈ items.
Proof.
  apply (List_round_trip 42 "sagwa" "apple" twoWords42); [|reflexivity..].
  vm_compute. by eexists.
Defined.

(** X10. [List] fails with [ErrWordNotFound] exactly when the chat is
    registered and no key of the vocabulary bucket starts with its decimal
    form; in particular on an empty bucket. *)
Theorem List_WordNotFound_iff (chatID : Z) (w : World) :
  telegram.List chatID w = Done (Err ErrWordNotFound, w)
  ↔ registered w chatID
    ∧ ∀ key, is_Some (kquiz w !! key) →
             strings.HasPrefix key (telegram.chatKey chatID) = false.
Proof.
  rewrite List_spec, <-listLoop_nil_iff.
  destruct (bool_decide_reflect (registered w chatID)) as [Hr|Hr].
  - case_decide as Hlen.
    + apply nil_length_inv in Hlen. by split.
    + split; [done|]. intros [_ E]. by rewrite E in Hlen.
  - split; [done|]. by intros [? _].
Qed.

(** X11. After a [Clear] that returned nil the chat has no words: [List]
    fails with [ErrWordNotFound]. *)
Theorem Clear_then_List_WordNotFound (chatID : Z) (w w1 : World) :
  telegram.Clear chatID w = Done (None, w1) →
  telegram.List chatID w1 = Done (Err ErrWordNotFound, w1).
Proof.
  intros H. pose proof (Clear_registered _ _ _ H) as Hr.
  apply Clear_success in H as [Ht Hk].
  rewrite List_spec, bool_decide_eq_true_2 by (by eapply registered_same_bucket).
  rewrite decide_True; [done|].
  assert (telegram.listLoop chatID (kquiz w1) = []) as ->; [|done].
  apply listLoop_nil_iff. intros key [v Hv].
  rewrite Hk, clearLoop_lookup in Hv.
  by destruct (strings.HasPrefix key (telegram.chatKey chatID)).
Qed.

Lemma Clear_then_List_WordNotFound_witness :
  ∃ w1, telegram.Clear 42 twoWords42 = Done (None, w1)
        ∧ telegram.List 42 w1 = Done (Err ErrWordNotFound, w1).
Proof.
  eexists. split; [reflexivity|].
  apply (Clear_then_List_WordNotFound 42 twoWords42). reflexivity.
Defined.

(** X12. The words of a chat that unregisters are out of its reach and back
    when it registers again: after an [Add], [Search] for the word fails with
    [ErrNotRegistered] once [Unregister] has returned nil, and finds the
    translation again once [Register] has. *)
Theorem words_back_after_Register
    (chatID : Z) (word translation : string) (w w1 w2 w3 : World) :
  telegram.Add chatID word translation w = Done (None, w1) →
  telegram.Unregister chatID w1 = Done (None, w2) →
  telegram.Register chatID w2 = Done (None, w3) →
  telegram.Search chatID word w2 = Done (Err ErrNotRegistered, w2)
  ∧ telegram.Search chatID word w3 = Done (Ok translation, w3).
Proof.
  intros (_ & _ & _ & Hk1)%Add_success (_ & Ht2 & Hk2 & _)%Unregister_success HR.
  pose proof (Register_success _ _ _ HR) as (Hn & Ht3 & Hk3 & _).
  split; [by apply Search_unregistered|].
  apply Search_found.
  - unfold registered. rewrite Ht3, lookup_insert_eq. by eexists.
  - by rewrite Hk3, Hk2, Hk1, lookup_insert_eq.
Qed.

Lemma words_back_after_Register_witness :
  ∃ w1 w2 w3,
    telegram.Add 42 "sagwa" "apple" registered42 = Done (None, w1)
    ∧ telegram.Search 42 "sagwa" w2 = Done (Err ErrNotRegistered, w2)
    ∧ telegram.Search 42 "sagwa" w3 = Done (Ok "apple", w3).
Proof.
  eexists _, _, _. split; [reflexivity|].
  eapply (words_back_after_Register 42 "sagwa" "apple" registered42); reflexivity.
Defined.

(** ** What every turn of the loop keeps *)

Section Frames.
Variable R : World → World → Prop.
Hypothesis R_refl : ∀ w, R w w.
Hypothesis R_trans : ∀ w1 w2 w3, R w1 w2 → R w2 w3 → R w1 w3.

Lemma holds_ret {A} (a : A) (P : A → Prop) : P a → holds R (ret a) P.
Proof. intros H w. by exists a, w. Qed.

Lemma holds_bind {A B} (m : M A) (k : A → M B) (P : A → Prop) (Q : B → Prop) :
  holds R m P → (∀ a, P a → holds R (k a) Q) → holds R (bind m k) Q.
Proof.
  intros Hm Hk w. destruct (Hm w) as (a & w1 & E1 & R1 & Pa).
  destruct (Hk a Pa w1) as (b & w2 & E2 & R2 & Qb).
  exists b, w2. unfold bind. rewrite E1. eauto.
Qed.

Lemma holds_weaken {A} (m : M A) (P Q : A → Prop) :
  holds R m P → (∀ a, P a → Q a) → holds R m Q.
Proof.
  intros Hm HPQ w. destruct (Hm w) as (a & w1 & E1 & R1 & Pa). eauto 6.
Qed.

Lemma holds_index {A} (l : list A) (i : nat) (x : A) :
  l !! i = Some x → holds R (index l (Z.of_nat i)) (λ y, y = x).
Proof.
  intros H w. exists x, w. split; [|by split].
  apply index_lookup; [lia|by rewrite Nat2Z.id].
Qed.

Lemma holds_splitMessage text :
  holds R (splitMessage text) (λ p, p = (command text, argument text)).
Proof. intros w. eexists _, w. by rewrite splitMessage_spec. Qed.

Lemma holds_IsRegistered chatID : holds R (telegram.IsRegistered chatID) (λ _, True).
Proof. intros w. eexists _, w. by rewrite IsRegistered_spec. Qed.

Lemma holds_IsAdded chatID word : holds R (telegram.IsAdded chatID word) (λ _, True).
Proof. intros w. eexists _, w. by rewrite IsAdded_spec. Qed.

(** The pairs of a successful [List] have two elements each. *)
Lemma holds_List chatID :
  holds R (telegram.List chatID)
    (λ r, ∀ items, r = Ok items → Forall (λ p, length p = 2%nat) items).
Proof.
  intros w. eexists _, w. rewrite List_spec. split; [done|]. split; [done|].
  intros items Hitems. apply Forall_forall. intros p Hp.
  destruct (bool_decide (registered w chatID)); [|done].
  case_decide; [done|]. injection Hitems as <-.
  by destruct (listLoop_pairs _ _ _ Hp) as (? & ? & ->).
Qed.

Lemma holds_lookupRandomWord chatID :
  holds R (lookupRandomWord chatID) (λ _, True).
Proof. intros w. by eexists _, w. Qed.

Hypothesis R_Printf : ∀ line w, R w (logged line w).

Lemma holds_Printf line : holds R (Printf line) (λ _, True).
Proof. intros w. eexists _, _. split; [done|]. by split. Qed.

Lemma holds_Search chatID word :
  holds R (telegram.Search chatID word) (λ _, True).
Proof.
  intros w. destruct (decide (registered w chatID)) as [Hr|Hr].
  - destruct (kquiz w !! telegram.wordKey chatID word) as [t|] eqn:Hk.
    + rewrite (Search_found _ _ _ _ Hr Hk). by eexists _, _.
    + rewrite (Search_absent _ _ _ Hr Hk). by eexists _, _.
  - rewrite (Search_unregistered _ _ _ Hr). by eexists _, _.
Qed.

Hypothesis R_Intn : ∀ w, R w (drawn w).

(** [Random] returns, and a pair when it succeeds. *)
Lemma holds_Random chatID :
  holds R (telegram.Random chatID) (λ r, ∀ words, r = Ok words → length words = 2%nat).
Proof.
  intros w.
  assert (∃ r w1, telegram.Random chatID w = Done (r, w1)) as (r & w1 & HR).
  { destruct (decide (registered w chatID)) as [Hr|Hr].
    - pose proof (List_spec chatID w) as HL.
      rewrite bool_decide_eq_true_2 in HL by done.
      case_decide as Hlen.
      + destruct (Random_List_Err _ _ _ Hr HL) as [w' ?]. by eexists _, _.
      + assert (telegram.listLoop chatID (kquiz w) ≠ []) as Hne
          by (intros E; by rewrite E in Hlen).
        destruct (Random_List_Ok _ _ _ Hr HL Hne) as (? & ? & ? & _). by eexists _, _.
    - rewrite Random_unregistered by done. by eexists _, _. }
  exists r, w1. split; [done|].
  destruct (Random_cases _ _ _ _ HR) as [[-> ->]|[[-> ->]|(? & ? & -> & _ & ->)]];
    (split; [done|]); intros words [= <-]; done.
Qed.

Variable chatID : Z.
Hypothesis R_Send : ∀ msg w, ChatID msg = chatID → R w (delivered msg w).

(** A reply to the chat, with the log line of a failed [Send]. *)
Lemma holds_reply msg what :
  ChatID msg = chatID →
  holds R (do err <- Send msg; logSendError what err) (λ _, True).
Proof.
  intros Hmsg. apply holds_bind with (P := λ _, True).
  - intros w. eexists _, _. split; [done|]. split; [by apply R_Send|done].
  - intros [e|] _; [apply holds_Printf|by apply holds_ret].
Qed.

Lemma holds_searchWord word : holds R (searchWord chatID word) (λ _, True).
Proof.
  unfold searchWord. eapply holds_bind; [apply holds_Search|].
  intros r _. apply holds_reply. by destruct r.
Qed.

Lemma holds_sendPairs words :
  Forall (λ p, length p = 2%nat) words → holds R (sendPairs chatID words) (λ _, True).
Proof.
  induction 1 as [|pairs words Hlen _ IH]; simpl; [by apply holds_ret|].
  destruct pairs as [|word [|translation [|? ?]]]; try done.
  eapply holds_bind; [by apply (holds_index _ 0 word)|]. intros ? ->.
  eapply holds_bind; [by apply (holds_index _ 1 translation)|]. intros ? ->.
  apply holds_bind with (P := λ _, True).
  - intros w. eexists _, _. split; [done|]. split; [by apply R_Send|done].
  - intros err _. apply holds_bind with (P := λ _, True); [|by intros].
    destruct err; [apply holds_Printf|by apply holds_ret].
Qed.

Lemma holds_listWords : holds R (listWords chatID) (λ _, True).
Proof.
  unfold listWords. eapply holds_bind; [apply holds_List|].
  intros [items|e] H; [by apply holds_sendPairs, H|by apply holds_reply].
Qed.

Lemma holds_randomWord :
  holds R (randomWord chatID)
    (λ o, ∀ words, o = Some words → length words = 2%nat).
Proof.
  unfold randomWord. eapply holds_bind; [apply holds_Random|].
  intros r Hr.
  apply holds_bind
    with (P := λ p, ChatID p.1 = chatID
                    ∧ ∀ words, p.2 = Some words → length words = 2%nat).
  - destruct r as [words|e].
    + specialize (Hr words eq_refl).
      destruct words as [|word [|translation [|? ?]]]; try done.
      eapply holds_bind; [by apply (holds_index _ 0 word)|]. intros ? ->.
      apply holds_ret. split; [done|]. by intros ? [= <-].
    + by apply holds_ret.
  - intros [msg words] [Hmsg Hwords]. simpl in *.
    apply holds_bind with (P := λ _, True).
    + intros w. eexists _, _. split; [done|]. split; [by apply R_Send|done].
    + intros err _. eapply holds_bind with (P := λ _, True).
      * destruct err; [apply holds_Printf|by apply holds_ret].
      * intros _ _. by apply holds_ret.
Qed.

Hypothesis R_deleteRandomWord :
  ∀ w w', deleteRandomWord chatID w = Done ((), w') → R w w'.

Lemma holds_answerRandomWord ToLower message :
  holds R (answerRandomWord ToLower chatID message) (λ _, True).
Proof.
  unfold answerRandomWord. eapply holds_bind; [apply holds_lookupRandomWord|].
  intros [answer|] _; [|apply holds_Printf].
  apply holds_bind with (P := λ _, True).
  - intros w. eexists _, _. split; [done|].
    split; [apply R_Send; by case_decide|done].
  - intros err _. eapply holds_bind with (P := λ _, True).
    + destruct err; [apply holds_Printf|by apply holds_ret].
    + intros _ _ w. eexists _, _. split; [done|]. split; [|done].
      by apply R_deleteRandomWord.
Qed.

Hypothesis R_storeRandomWord :
  ∀ v w w', storeRandomWord chatID v w = Done ((), w') → R w w'.

Lemma holds_random_case :
  holds R (do words <- randomWord chatID;
           match words with
           | Some words => do w1 <- index words 1; storeRandomWord chatID w1
           | None => ret ()
           end) (λ _, True).
Proof.
  eapply holds_bind; [apply holds_randomWord|].
  intros [words|] H; [|by apply holds_ret].
  specialize (H words eq_refl).
  destruct words as [|word [|translation [|? ?]]]; try done.
  eapply holds_bind; [by apply (holds_index _ 1 translation)|]. intros ? ->.
  intros w. eexists _, _. split; [done|]. split; [|done].
  by eapply R_storeRandomWord.
Qed.

Hypothesis R_Update : ∀ fn e w w', bbolt.Update fn w = Done (e, w') → R w w'.

Lemma holds_Update fn : holds R (bbolt.Update fn) (λ _, True).
Proof.
  intros w.
  assert (∃ e w', bbolt.Update fn w = Done (e, w')) as (e & w' & H).
  { unfold bbolt.Update. destruct (fn _) as [tx [e|]]; [by eexists _, _|].
    destruct (mjoin (head (commitErrs w))); by eexists _, _. }
  exists e, w'. split; [done|]. split; [by eapply R_Update|done].
Qed.

(** An [Update] and the log line for its error. *)
Lemma holds_write fn line :
  holds R (do err <- bbolt.Update fn;
           match err with
           | Some e => run Printf (line e); ret (Some ErrDatabaseError)
           | None => ret None
           end) (λ _, True).
Proof.
  eapply holds_bind; [apply holds_Update|].
  intros [e|] _; [|by apply holds_ret].
  eapply holds_bind; [apply holds_Printf|]. intros _ _. by apply holds_ret.
Qed.

Lemma holds_Register c : holds R (telegram.Register c) (λ _, True).
Proof.
  unfold telegram.Register. eapply holds_bind; [apply holds_IsRegistered|].
  intros [|] _; [by apply holds_ret|].
  apply (holds_write _ (λ e, "Failed to update registration data. " +:+ Error e +:+ ".")).
Qed.

Lemma holds_Unregister c : holds R (telegram.Unregister c) (λ _, True).
Proof.
  unfold telegram.Unregister. eapply holds_bind; [apply holds_IsRegistered|].
  intros [|] _; [|by apply holds_ret].
  apply (holds_write _ (λ e, "Failed to update registration data. " +:+ Error e +:+ ".")).
Qed.

Lemma holds_Add c word translation :
  holds R (telegram.Add c word translation) (λ _, True).
Proof.
  unfold telegram.Add. eapply holds_bind; [apply holds_IsRegistered|].
  intros [|] _; [|by apply holds_ret].
  eapply holds_bind; [apply holds_IsAdded|].
  intros [|] _; [by apply holds_ret|].
  apply (holds_write _ (λ e, "Failed to add word. " +:+ Error e +:+ ".")).
Qed.

Lemma holds_Delete c word : holds R (telegram.Delete c word) (λ _, True).
Proof.
  unfold telegram.Delete. eapply holds_bind; [apply holds_IsRegistered|].
  intros [|] _; [|by apply holds_ret].
  eapply holds_bind; [apply holds_IsAdded|].
  intros [|] _; [|by apply holds_ret].
  apply (holds_write _ (λ e, "Failed to get word. " +:+ Error e +:+ ".")).
Qed.

Lemma holds_Clear c : holds R (telegram.Clear c) (λ _, True).
Proof.
  unfold telegram.Clear. eapply holds_bind; [apply holds_IsRegistered|].
  intros [|] _; [|by apply holds_ret].
  apply (holds_write _ (λ e, "Failed to clear words. " +:+ Error e +:+ ".")).
Qed.

Lemma holds_registerUser : holds R (registerUser chatID) (λ _, True).
Proof.
  unfold registerUser. eapply holds_bind; [apply holds_Register|].
  intros e _. apply holds_reply. by destruct e.
Qed.

Lemma holds_unregisterUser : holds R (unregisterUser chatID) (λ _, True).
Proof.
  unfold unregisterUser. eapply holds_bind; [apply holds_Unregister|].
  intros e _. apply holds_reply. by destruct e.
Qed.

Lemma holds_addWord word translation :
  holds R (addWord chatID word translation) (λ _, True).
Proof.
  unfold addWord. eapply holds_bind; [apply holds_Add|].
  intros e _. apply holds_reply. by destruct e.
Qed.

Lemma holds_deleteWord word : holds R (deleteWord chatID word) (λ _, True).
Proof.
  unfold deleteWord. eapply holds_bind; [apply holds_Delete|].
  intros e _. apply holds_reply. by destruct e.
Qed.

Lemma holds_clearWords : holds R (clearWords chatID) (λ _, True).
Proof.
  unfold clearWords. eapply holds_bind; [apply holds_Clear|].
  intros e _. apply holds_reply. by destruct e.
Qed.

(** The two pieces [/add] takes from an argument with a space are there. *)
Lemma holds_add_case arg :
  ¬ (strings.len arg = 0 ∨ strings.Index arg " " = -1) →
  holds R (let splitted := strings.SplitN arg " " 2 in
           do word <- index splitted 0;
           do translation <- index splitted 1;
           addWord chatID word translation) (λ _, True).
Proof.
  intros H.
  assert (∃ i, strings.find arg " " = Some i) as [i Hi].
  { unfold strings.Index in H. destruct (strings.find arg " "); [by eexists|].
    exfalso. apply H. by right. }
  simpl. rewrite (SplitN_first_space _ _ Hi).
  eapply holds_bind; [by apply (holds_index _ 0)|]. intros ? ->.
  eapply holds_bind; [by apply (holds_index _ 1)|]. intros ? ->.
  apply holds_addWord.
Qed.

Lemma holds_switchMessage ToLower message arg :
  holds R (switchMessage ToLower chatID message arg) (λ _, True).
Proof.
  unfold switchMessage.
  destruct (decide (message = "/start" ∨ message = "/register"));
    [apply holds_registerUser|].
  destruct (decide (message = "/stop" ∨ message = "/unregister"));
    [apply holds_unregisterUser|].
  destruct (decide (message = "/add")).
  { destruct (decide (strings.len arg = 0 ∨ strings.Index arg " " = -1));
      [by apply holds_reply|by apply holds_add_case]. }
  destruct (decide (message = "/search")).
  { destruct (decide (strings.len arg = 0));
      [by apply holds_reply|apply holds_searchWord]. }
  destruct (decide (message = "/random")); [apply holds_random_case|].
  destruct (decide (message = "/delete")).
  { destruct (decide (strings.len arg = 0));
      [by apply holds_reply|apply holds_deleteWord]. }
  destruct (decide (message = "/list")); [apply holds_listWords|].
  destruct (decide (message = "/clear")); [apply holds_clearWords|].
  apply holds_answerRandomWord.
Qed.

Lemma holds_handleUpdate ToLower m :
  ID (MessageChat m) = chatID →
  holds R (handleUpdate ToLower (newUpdate (Some m))) (λ _, True).
Proof.
  intros Hid. unfold handleUpdate. simpl. rewrite Hid.
  eapply holds_bind; [apply holds_Printf|]. intros _ _.
  eapply holds_bind; [apply holds_splitMessage|]. intros ? ->.
  apply holds_switchMessage.
Qed.

End Frames.

Section FrameInstances.

Lemma repliesTo_refl chatID w : repliesTo chatID w w.
Proof. exists []. by rewrite app_nil_r. Qed.

Lemma repliesTo_trans chatID w1 w2 w3 :
  repliesTo chatID w1 w2 → repliesTo chatID w2 w3 → repliesTo chatID w1 w3.
Proof.
  intros (m1 & E1 & F1) (m2 & E2 & F2). exists (m1 ++ m2).
  split; [by rewrite E2, E1, app_assoc|by apply Forall_app].
Qed.

Lemma repliesTo_same_sends chatID w w' : sends w' = sends w → repliesTo chatID w w'.
Proof. intros E. exists []. by rewrite app_nil_r. Qed.

Lemma repliesTo_Update chatID fn e w w' :
  bbolt.Update fn w = Done (e, w') → repliesTo chatID w w'.
Proof.
  intros H. apply repliesTo_same_sends. revert H. unfold bbolt.Update.
  destruct (fn _) as [tx [e'|]]; [by intros [= _ <-]|].
  destruct (mjoin (head (commitErrs w))); by intros [= _ <-].
Qed.

Lemma handleUpdate_repliesTo ToLower m :
  holds (repliesTo (ID (MessageChat m))) (handleUpdate ToLower (newUpdate (Some m)))
    (λ _, True).
Proof.
  apply (holds_handleUpdate (repliesTo (ID (MessageChat m)))
           (repliesTo_refl _) (repliesTo_trans _)) with (chatID := ID (MessageChat m));
    try done.
  - intros line w. by apply repliesTo_same_sends.
  - intros w. by apply repliesTo_same_sends.
  - intros msg w Hmsg. exists [msg]. split; [done|]. by apply Forall_singleton.
  - intros w w' [= <-]. by apply repliesTo_same_sends.
  - intros v w w' [= <-]. by apply repliesTo_same_sends.
  - apply repliesTo_Update.
Qed.

Lemma keepsOtherWords_trans chatID w1 w2 w3 :
  keepsOtherWords chatID w1 w2 → keepsOtherWords chatID w2 w3 →
  keepsOtherWords chatID w1 w3.
Proof. intros H1 H2 other Hne. by rewrite H2, H1. Qed.

Lemma keepsOtherWords_same chatID w w' :
  currRandomWord w' = currRandomWord w → keepsOtherWords chatID w w'.
Proof. intros E other _. by rewrite E. Qed.

Lemma keepsOtherWords_Update chatID fn e w w' :
  bbolt.Update fn w = Done (e, w') → keepsOtherWords chatID w w'.
Proof.
  intros H. apply keepsOtherWords_same. revert H. unfold bbolt.Update.
  destruct (fn _) as [tx [e'|]]; [by intros [= _ <-]|].
  destruct (mjoin (head (commitErrs w))); by intros [= _ <-].
Qed.

Lemma handleUpdate_keepsOtherWords ToLower m :
  holds (keepsOtherWords (ID (MessageChat m)))
    (handleUpdate ToLower (newUpdate (Some m))) (λ _, True).
Proof.
  apply (holds_handleUpdate (keepsOtherWords (ID (MessageChat m))))
    with (chatID := ID (MessageChat m)); try done.
  - apply keepsOtherWords_trans.
  - intros w w' [= <-] other Hne. simpl. by rewrite lookup_delete_ne.
  - intros v w w' [= <-] other Hne. simpl. by rewrite lookup_insert_ne.
  - apply keepsOtherWords_Update.
Qed.

Lemma keepsStore_trans w1 w2 w3 : keepsStore w1 w2 → keepsStore w2 w3 → keepsStore w1 w3.
Proof. intros (? & ? & ?) (? & ? & ?). repeat split; congruence. Qed.

End FrameInstances.


(** X14. Whatever a message asks for, the loop answers only its sender:
    the turn appends to what was sent before, and every message it appends
    goes to the chat the message came from. *)
Theorem replies_go_to_sender (ToLower : string → string) (m : Message) (w : World) :
  ∃ w' msgs,
    handleUpdate ToLower (newUpdate (Some m)) w = Done ((), w')
    ∧ sends w' = sends w ++ msgs
    ∧ Forall (λ msg, ChatID msg = ID (MessageChat m)) msgs.
Proof.
  destruct (handleUpdate_repliesTo ToLower m w) as ([] & w' & H & (msgs & ? & ?) & _).
  by exists w', msgs.
Qed.

(** X15. A message of one chat never touches the pending word of another
    chat: after the turn every other chat has the entry of [currRandomWord]
    it had, or none as before. *)
Theorem pending_word_of_other_chat_untouched
    (ToLower : string → string) (m : Message) (w : World) :
  ∃ w',
    handleUpdate ToLower (newUpdate (Some m)) w = Done ((), w')
    ∧ ∀ other, other ≠ ID (MessageChat m) →
               currRandomWord w' !! other = currRandomWord w !! other.
Proof.
  destruct (handleUpdate_keepsOtherWords ToLower m w) as ([] & w' & H & ? & _).
  by exists w'.
Qed.

Lemma pending_word_of_other_chat_untouched_witness :
  ∃ w', handleUpdate lowerASCII (says (newChat "u" 9) "apple") asked7 = Done ((), w')
        ∧ currRandomWord w' !! 7 = Some "apple".
Proof.
  destruct (pending_word_of_other_chat_untouched lowerASCII
              (newMessage (newChat "u" 9) "apple") asked7) as (w' & H & Hq).
  exists w'. split; [exact H|]. rewrite (Hq 7); [reflexivity|discriminate].
Defined.

Section ReadingFacts.
Variable ToLower : string → string.

Lemma keepsStore_reading chatID message arg :
  message ∈ ["/search"; "/list"; "/random"] ∨ message ∉ commands →
  holds keepsStore (switchMessage ToLower chatID message arg) (λ _, True).
Proof.
  assert (∀ w, keepsStore w w) as Hrefl by done.
  assert (∀ line w, keepsStore w (logged line w)) as HPrintf by done.
  assert (∀ w, keepsStore w (drawn w)) as HIntn by done.
  assert (∀ msg w, ChatID msg = chatID → keepsStore w (delivered msg w)) as HSend by done.
  assert (∀ w w', deleteRandomWord chatID w = Done ((), w') → keepsStore w w')
    as Hdelete by (by intros w w' [= <-]).
  assert (∀ v w w', storeRandomWord chatID v w = Done ((), w') → keepsStore w w')
    as Hstore by (by intros v w w' [= <-]).
  intros [Hin|Hout].
  - rewrite !elem_of_cons in Hin. destruct Hin as [->|[->|[->|Hin]]].
    + change (switchMessage ToLower chatID "/search" arg)
        with (if decide (strings.len arg = 0) then
                do err <- Send (wordUsage chatID);
                logSendError "Failed to send response." err
              else searchWord chatID arg).
      case_decide.
      * by apply (holds_reply keepsStore Hrefl keepsStore_trans HPrintf chatID HSend).
      * by apply (holds_searchWord keepsStore Hrefl keepsStore_trans HPrintf chatID HSend).
    + by apply (holds_listWords keepsStore Hrefl keepsStore_trans HPrintf chatID HSend).
    + by apply (holds_random_case keepsStore Hrefl keepsStore_trans HPrintf HIntn
                  chatID HSend Hstore).
    + by apply not_elem_of_nil in Hin.
  - rewrite switchMessage_default by done.
    by apply (holds_answerRandomWord keepsStore Hrefl keepsStore_trans HPrintf chatID
                HSend Hdelete).
Qed.

(** [sendPairs] sends one message for each pair, in the order of the list. *)
Lemma sendPairs_sends chatID words w :
  Forall (λ p, length p = 2%nat) words →
  ∃ w', sendPairs chatID words w = Done ((), w')
        ∧ sends w' = sends w ++ (pairMessage chatID <$> words).
Proof.
  intros H. revert w. induction H as [|pairs words Hlen _ IH]; intros w; simpl.
  - eexists. split; [done|]. by rewrite app_nil_r.
  - destruct pairs as [|word [|translation [|? ?]]]; try done.
    unfold bind at 1, index. simpl. unfold bind at 1. simpl.
    unfold bind at 1, Send. unfold bind at 1, logSendError.
    destruct (mjoin (head (sendErrs w))) as [e|]; simpl.
    + destruct (IH (logged ("Failed to respond to list words request." +:+ " " +:+ e
                            +:+ ".")
                      (delivered (NewMessage chatID (word +:+ " -> " +:+ translation)) w)))
        as (w' & Hw' & Hs).
      exists w'. split; [done|]. rewrite Hs. simpl. by rewrite <-app_assoc.
    + destruct (IH (delivered (NewMessage chatID (word +:+ " -> " +:+ translation)) w))
        as (w' & Hw' & Hs).
      exists w'. split; [done|]. rewrite Hs. simpl. by rewrite <-app_assoc.
Qed.

End ReadingFacts.

(** X16. The commands that read ([/search], [/list], [/random]) and the
    answers to a pending word never write to the store: after the turn both
    buckets are as before and no commit was tried. *)
Theorem reading_keeps_store (ToLower : string → string) (m : Message) (w : World) :
  command (MessageText m) ∈ ["/search"; "/list"; "/random"]
  ∨ isCommand (command (MessageText m)) = false →
  ∃ w',
    handleUpdate ToLower (newUpdate (Some m)) w = Done ((), w')
    ∧ telegram w' = telegram w ∧ kquiz w' = kquiz w ∧ commitErrs w' = commitErrs w.
Proof.
  intros H. rewrite handleUpdate_spec.
  destruct (keepsStore_reading ToLower (ID (MessageChat m)) (command (MessageText m))
              (argument (MessageText m))
              ltac:(destruct H as [H|H%isCommand_false]; [by left|by right])
              (logged (receivedLine m) w))
    as ([] & w' & Hw' & Hkeep & _).
  exists w'. split; [done|]. apply Hkeep.
Qed.

Lemma reading_keeps_store_witness :
  ∃ w',
    handleUpdate lowerASCII (says (newChat "u" 7) "/random") asked7 = Done ((), w')
    ∧ telegram w' = telegram asked7 ∧ kquiz w' = kquiz asked7
    ∧ commitErrs w' = commitErrs asked7.
Proof.
  apply (reading_keeps_store lowerASCII (newMessage (newChat "u" 7) "/random") asked7).
  left. vm_compute. right. right. left.
Defined.

(** X17. The split of a text: it never panics; the part it switches on has
    no space; a text without a space is that part, with an empty argument,
    and any other text is that part, one space and the argument. *)
Theorem splitMessage_round_trip (text : string) (w : World) :
  ∃ message argument,
    splitMessage text w = Done ((message, argument), w)
    ∧ strings.Index message " " = -1
    ∧ (strings.Index text " " = -1 ∧ text = message ∧ argument = EmptyString
       ∨ strings.Index text " " ≠ -1 ∧ text = message +:+ " " +:+ argument).
Proof.
  exists (command text), (argument text). split; [apply splitMessage_spec|].
  unfold command, argument, strings.Index.
  destruct (strings.find text " ") as [i|] eqn:Hi.
  - destruct (find_split _ _ _ Hi) as [Hsplit ->]. split; [done|].
    right. split; [lia|done].
  - rewrite Hi. split; [done|]. by left.
Qed.

(** X18. [/list] for a registered chat with words sends one message for
    each pair of [List], in the order of [List], and nothing else. *)
Theorem list_sends_each_pair
    (ToLower : string → string) (chat : Chat) (msg : string) (w : World) :
  command msg = "/list" →
  registered w (ID chat) →
  telegram.listLoop (ID chat) (kquiz w) ≠ [] →
  ∃ w',
    handleUpdate ToLower (says chat msg) w = Done ((), w')
    ∧ sends w' = sends w ++
        (pairMessage (ID chat) <$> telegram.listLoop (ID chat) (kquiz w)).
Proof.
  intros Hc Hr Hne. unfold says. rewrite handleUpdate_spec. simpl. rewrite Hc.
  change (switchMessage ToLower (ID chat) "/list" (argument msg))
    with (listWords (ID chat)).
  unfold listWords, bind. rewrite List_spec. simpl.
  rewrite bool_decide_eq_true_2 by done.
  rewrite decide_False by (by destruct (telegram.listLoop (ID chat) (kquiz w))).
  apply (sendPairs_sends (ID chat) _ (logged (receivedLine (newMessage chat msg)) w)).
  apply Forall_forall. intros p Hp.
  by destruct (listLoop_pairs _ _ _ Hp) as (? & ? & ->).
Qed.

Lemma list_sends_each_pair_witness :
  ∃ w',
    handleUpdate lowerASCII (says (newChat "u" 42) "/list") twoWords42 = Done ((), w')
    ∧ sends w' = [NewMessage 42 "mul -> water"; NewMessage 42 "sagwa -> apple"].
Proof.
  apply (list_sends_each_pair lowerASCII (newChat "u" 42) "/list" twoWords42).
  - reflexivity.
  - vm_compute. by eexists.
  - vm_compute. discriminate.
Defined.

(** X19. [/search] and [/delete] need a word: with an empty argument the
    reply is the prompt for it and the handler is not called; with any other
    argument the whole argument, spaces and all, is the word. *)
Theorem search_and_delete_take_whole_argument
    (ToLower : string → string) (chat : Chat) (msg : string) (w : World) :
  (strings.len (argument msg) = 0 →
   command msg = "/search" ∨ command msg = "/delete" →
   ∃ w',
     handleUpdate ToLower (says chat msg) w = Done ((), w')
     ∧ sends w' = sends w ++ [wordUsage (ID chat)]
     ∧ telegram w' = telegram w ∧ kquiz w' = kquiz w
     ∧ currRandomWord w' = currRandomWord w)
  ∧ (strings.len (argument msg) ≠ 0 →
     (command msg = "/search" →
      handleUpdate ToLower (says chat msg) w
      = searchWord (ID chat) (argument msg)
          (logged (receivedLine (newMessage chat msg)) w))
     ∧ (command msg = "/delete" →
        handleUpdate ToLower (says chat msg) w
        = deleteWord (ID chat) (argument msg)
            (logged (receivedLine (newMessage chat msg)) w))).
Proof.
  unfold says. rewrite handleUpdate_spec. simpl. split.
  - intros Hlen [-> | ->];
      [change (switchMessage ToLower (ID chat) "/search" (argument msg))
         with (if decide (strings.len (argument msg) = 0) then
                 do err <- Send (wordUsage (ID chat));
                 logSendError "Failed to send response." err
               else searchWord (ID chat) (argument msg))
      |change (switchMessage ToLower (ID chat) "/delete" (argument msg))
         with (if decide (strings.len (argument msg) = 0) then
                 do err <- Send (wordUsage (ID chat));
                 logSendError "Failed to send response." err
               else deleteWord (ID chat) (argument msg))];
      rewrite decide_True by done;
      unfold bind, Send, logSendError, Printf, ret; simpl;
      destruct (mjoin (head (sendErrs w))); simpl; eexists; (split; [done|]); done.
  - intros Hlen. split; intros ->.
    + change (switchMessage ToLower (ID chat) "/search" (argument msg))
         with (if decide (strings.len (argument msg) = 0) then
                 do err <- Send (wordUsage (ID chat));
                 logSendError "Failed to send response." err
               else searchWord (ID chat) (argument msg)).
      by rewrite decide_False.
    + change (switchMessage ToLower (ID chat) "/delete" (argument msg))
         with (if decide (strings.len (argument msg) = 0) then
                 do err <- Send (wordUsage (ID chat));
                 logSendError "Failed to send response." err
               else deleteWord (ID chat) (argument msg)).
      by rewrite decide_False.
Qed.

Lemma search_and_delete_take_whole_argument_witness :
  (∃ w',
     handleUpdate lowerASCII (says (newChat "u" 7) "/search") asked7 = Done ((), w')
     ∧ sends w' = sends asked7 ++ [wordUsage 7])
  ∧ handleUpdate lowerASCII (says (newChat "u" 7) "/delete red apple") asked7
    = deleteWord 7 "red apple"
        (logged (receivedLine (newMessage (newChat "u" 7) "/delete red apple")) asked7).
Proof.
  split.
  - destruct (search_and_delete_take_whole_argument lowerASCII (newChat "u" 7)
                "/search" asked7) as [H _].
    destruct H as (w' & H1 & H2 & _); [reflexivity|left; reflexivity|].
    exists w'. split; [exact H1|exact H2].
  - apply (search_and_delete_take_whole_argument lowerASCII (newChat "u" 7)
             "/delete red apple" asked7); [discriminate|reflexivity].
Defined.

(** X20. A round of the quiz. [/random] from a registered chat that has
    words asks for one of the words [List] returns for it and keeps the
    translation of that pair; a next message without a space that is no
    command and equals the translation up to letter case gets "Your answer is
    correct", and the pending word is gone. *)
Theorem quiz_round
    (ToLower : string → string) (chat : Chat) (msg : string) (w : World) :
  command msg = "/random" →
  registered w (ID chat) →
  telegram.listLoop (ID chat) (kquiz w) ≠ [] →
  ∃ w1 word translation,
    handleUpdate ToLower (says chat msg) w = Done ((), w1)
    ∧ [word; translation] ∈ telegram.listLoop (ID chat) (kquiz w)
    ∧ sends w1 = sends w ++
        [NewMessage (ID chat) ("What is translation for: " +:+ word)]
    ∧ currRandomWord w1 !! ID chat = Some translation
    ∧ ∀ answer,
        strings.Index answer " " = -1 →
        isCommand answer = false →
        ToLower answer = ToLower translation →
        ∃ w2,
          handleUpdate ToLower (says chat answer) w1 = Done ((), w2)
          ∧ sends w2 = sends w1 ++ [NewMessage (ID chat) "Your answer is correct"]
          ∧ currRandomWord w2 !! ID chat = None.
Proof.
  intros Hc Hr Hne.
  set (w0 := logged (receivedLine (newMessage chat msg)) w).
  assert (telegram.List (ID chat) w0
          = Done (Ok (telegram.listLoop (ID chat) (kquiz w)), w0)) as HL.
  { rewrite List_spec. rewrite bool_decide_eq_true_2 by done. simpl.
    by rewrite decide_False by (by destruct (telegram.listLoop (ID chat) (kquiz w))). }
  destruct (Random_List_Ok (ID chat) w0 _ Hr HL Hne) as (item & w0' & HR & Hin).
  destruct (Random_cases _ _ _ _ HR) as [[? _]|[[? _]|(word & tr & [= ->] & _ & ->)]];
    [done..|].
  assert (∃ w1, handleUpdate ToLower (says chat msg) w = Done ((), w1)
                ∧ sends w1 = sends w ++
                    [NewMessage (ID chat) ("What is translation for: " +:+ word)]
                ∧ currRandomWord w1 !! ID chat = Some tr) as (w1 & H1 & Hs1 & Hq1).
  { unfold says. rewrite handleUpdate_spec. simpl. rewrite Hc. fold w0.
    change (switchMessage ToLower (ID chat) "/random" (argument msg))
      with (do words <- randomWord (ID chat);
            match words with
            | Some words => do w1 <- index words 1; storeRandomWord (ID chat) w1
            | None => ret ()
            end).
    unfold bind at 1, randomWord, bind at 1. rewrite HR.
    unfold bind, ret, Send, logSendError, index, storeRandomWord; simpl.
    destruct (mjoin (head (sendErrs w))); simpl; eexists; (split; [done|]);
      simpl; by rewrite lookup_insert_eq. }
  exists w1, word, tr. split; [done|]. split; [done|]. split; [done|].
  split; [done|].
  intros answer Hs%Index_no_space Hcmd%isCommand_false Heq.
  unfold says. rewrite handleUpdate_spec. simpl. rewrite Hs.
  rewrite switchMessage_default by done.
  destruct (answerRandomWord_pending ToLower (ID chat) answer tr
              (logged (receivedLine (newMessage chat answer)) w1) Hq1)
    as (w2 & H2 & Hs2 & Hq2 & _).
  exists w2. split; [done|]. simpl in Hs2, Hq2. split.
  - rewrite Hs2. unfold verdict. by rewrite decide_True.
  - rewrite Hq2. apply lookup_delete_eq.
Qed.

Lemma quiz_round_witness :
  ∃ w1 w2,
    handleUpdate lowerASCII (says (newChat "u" 7) "/random") asked7 = Done ((), w1)
    ∧ currRandomWord w1 !! 7 = Some "apple"
    ∧ handleUpdate lowerASCII (says (newChat "u" 7) "APPLE") w1 = Done ((), w2)
    ∧ sends w2 = sends w1 ++ [NewMessage 7 "Your answer is correct"].
Proof.
  destruct (quiz_round lowerASCII (newChat "u" 7) "/random" asked7)
    as (w1 & word & translation & H1 & Hin & _ & Hq & Hanswer).
  - reflexivity.
  - vm_compute. by eexists.
  - vm_compute. discriminate.
  - assert (translation = "apple") as ->.
    { vm_compute in Hin. apply list_elem_of_singleton in Hin. by injection Hin. }
    destruct (Hanswer "APPLE") as (w2 & H2 & Hs2 & _); [reflexivity..|].
    exists w1, w2. repeat split; assumption.
Defined.

(** ** A failed [Send] *)

Section SendFailures.

Ltac worlds :=
  intros [t1 k1 q1 s1 l1 c1 e1 d1] [t2 k2 q2 s2 l2 c2 e2 d2] (? & ? & ? & ? & ? & ?);
  simpl in *; subst.

Lemma alike_ret {A} (Q : A → A → Prop) a1 a2 : Q a1 a2 → alike Q (ret a1) (ret a2).
Proof. intros H w1 w2 Hw. by exists a1, a2, w1, w2. Qed.

Lemma alike_bind {A B} (P : A → A → Prop) (Q : B → B → Prop)
    (m1 m2 : M A) (k1 k2 : A → M B) :
  alike P m1 m2 → (∀ a1 a2, P a1 a2 → alike Q (k1 a1) (k2 a2)) →
  alike Q (bind m1 k1) (bind m2 k2).
Proof.
  intros Hm Hk w1 w2 Hw.
  destruct (Hm w1 w2 Hw) as (a1 & a2 & w1' & w2' & E1 & E2 & Hw' & HP).
  destruct (Hk a1 a2 HP w1' w2' Hw') as (b1 & b2 & w1'' & w2'' & F1 & F2 & Hw'' & HQ).
  exists b1, b2, w1'', w2''. unfold bind. rewrite E1, E2. eauto.
Qed.

(** A step that gives the same result in both runs, and the rest for it. *)
Lemma alike_step {A B} (Q : B → B → Prop) (m : M A) (k : A → M B) :
  alike eq m m → (∀ a, alike Q (k a) (k a)) → alike Q (bind m k) (bind m k).
Proof. intros Hm Hk. eapply alike_bind; [exact Hm|]. intros a ? <-. apply Hk. Qed.

Lemma alike_Printf line1 line2 : alike (λ _ _, True) (Printf line1) (Printf line2).
Proof. worlds. by eexists _, _, _, _. Qed.

Lemma alike_Send msg : alike (λ _ _, True) (Send msg) (Send msg).
Proof. worlds. by eexists _, _, _, _. Qed.

Lemma alike_logSendError what err1 err2 :
  alike (λ _ _, True) (logSendError what err1) (logSendError what err2).
Proof. worlds. destruct err1, err2; by eexists _, _, _, _. Qed.

(** The reply and the log line of its failure: the runs stay alike whatever
    the transport answers in each. *)
Lemma alike_reply msg what :
  alike (λ _ _, True) (do err <- Send msg; logSendError what err)
    (do err <- Send msg; logSendError what err).
Proof.
  eapply alike_bind; [apply alike_Send|]. intros ? ? _. apply alike_logSendError.
Qed.

Lemma alike_index {A} (l : list A) i :
  0 <= i < Z.of_nat (length l) →
  alike (λ x1 x2, x1 = x2 ∧ x1 ∈ l) (index l i) (index l i).
Proof.
  intros Hi w1 w2 Hw.
  destruct (lookup_lt_is_Some_2 l (Z.to_nat i)) as [x Hx]; [lia|].
  exists x, x, w1, w2.
  rewrite !(index_lookup l i x) by (done || lia).
  split; [done|]. split; [done|]. split; [done|]. split; [done|].
  by eapply list_elem_of_lookup_2.
Qed.

Lemma alike_Intn n :
  0 < n → alike (λ i1 i2, i1 = i2 ∧ 0 <= i1 < n) (Intn n) (Intn n).
Proof.
  intros Hn. intros [t1 k1 q1 s1 l1 c1 e1 d1] [t2 k2 q2 s2 l2 c2 e2 d2]
    (? & ? & ? & ? & ? & ?); simpl in *; subst.
  unfold Intn. cbv beta. rewrite !decide_False by lia. simpl.
  eexists _, _, _, _. split; [done|]. split; [done|]. split; [done|].
  split; [done|]. by apply Z.mod_pos_bound.
Qed.

Lemma alike_IsRegistered chatID :
  alike eq (telegram.IsRegistered chatID) (telegram.IsRegistered chatID).
Proof. worlds. by eexists _, _, _, _. Qed.

Lemma alike_IsAdded chatID word :
  alike eq (telegram.IsAdded chatID word) (telegram.IsAdded chatID word).
Proof. worlds. by eexists _, _, _, _. Qed.

Lemma alike_Update fn : alike eq (bbolt.Update fn) (bbolt.Update fn).
Proof.
  worlds. unfold bbolt.Update. simpl.
  destruct (fn _) as [tx [e|]]; [by eexists _, _, _, _|].
  destruct (mjoin (head c2)); by eexists _, _, _, _.
Qed.

Lemma alike_write fn (line : error → string) :
  alike eq
    (do err <- bbolt.Update fn;
     match err with
     | Some e => run Printf (line e); ret (Some ErrDatabaseError)
     | None => ret None
     end)
    (do err <- bbolt.Update fn;
     match err with
     | Some e => run Printf (line e); ret (Some ErrDatabaseError)
     | None => ret None
     end).
Proof.
  apply alike_step; [apply alike_Update|]. intros [e|]; [|by apply alike_ret].
  eapply alike_bind; [apply alike_Printf|]. intros _ _ _. by apply alike_ret.
Qed.

Lemma alike_Register c : alike eq (telegram.Register c) (telegram.Register c).
Proof.
  apply alike_step; [apply alike_IsRegistered|].
  intros [|]; [by apply alike_ret|].
  apply (alike_write _ (λ e, "Failed to update registration data. " +:+ Error e +:+ ".")).
Qed.

Lemma alike_Unregister c : alike eq (telegram.Unregister c) (telegram.Unregister c).
Proof.
  apply alike_step; [apply alike_IsRegistered|].
  intros [|]; [|by apply alike_ret].
  apply (alike_write _ (λ e, "Failed to update registration data. " +:+ Error e +:+ ".")).
Qed.

Lemma alike_Add c word translation :
  alike eq (telegram.Add c word translation) (telegram.Add c word translation).
Proof.
  apply alike_step; [apply alike_IsRegistered|].
  intros [|]; [|by apply alike_ret].
  apply alike_step; [apply alike_IsAdded|].
  intros [|]; [by apply alike_ret|].
  apply (alike_write _ (λ e, "Failed to add word. " +:+ Error e +:+ ".")).
Qed.

Lemma alike_Delete c word : alike eq (telegram.Delete c word) (telegram.Delete c word).
Proof.
  apply alike_step; [apply alike_IsRegistered|].
  intros [|]; [|by apply alike_ret].
  apply alike_step; [apply alike_IsAdded|].
  intros [|]; [|by apply alike_ret].
  apply (alike_write _ (λ e, "Failed to get word. " +:+ Error e +:+ ".")).
Qed.

Lemma alike_Clear c : alike eq (telegram.Clear c) (telegram.Clear c).
Proof.
  apply alike_step; [apply alike_IsRegistered|].
  intros [|]; [|by apply alike_ret].
  apply (alike_write _ (λ e, "Failed to clear words. " +:+ Error e +:+ ".")).
Qed.

Lemma alike_Search c word : alike eq (telegram.Search c word) (telegram.Search c word).
Proof.
  apply alike_step; [apply alike_IsRegistered|].
  intros [|]; [|by apply alike_ret]. simpl.
  apply alike_step.
  - worlds. by eexists _, _, _, _.
  - intros [translation [e|]]; [|by apply alike_ret].
    eapply alike_bind; [apply alike_Printf|]. intros _ _ _.
    case_decide; by apply alike_ret.
Qed.

Lemma alike_List c :
  alike (λ r1 r2, r1 = r2
                  ∧ ∀ items, r1 = Ok items →
                             items ≠ [] ∧ Forall (λ p, length p = 2%nat) items)
    (telegram.List c) (telegram.List c).
Proof.
  worlds. rewrite !List_spec. eexists _, _, _, _.
  split; [done|]. split; [done|]. split; [done|]. simpl.
  split; [done|]. intros items.
  destruct (bool_decide _); [|done].
  case_decide as Hlen; [done|]. intros [= <-]. split.
  - intros E. by rewrite E in Hlen.
  - apply Forall_forall. intros p Hp.
    by destruct (listLoop_pairs _ _ _ Hp) as (? & ? & ->).
Qed.

Lemma alike_Random c :
  alike (λ r1 r2, r1 = r2 ∧ ∀ words, r1 = Ok words → length words = 2%nat)
    (telegram.Random c) (telegram.Random c).
Proof.
  apply alike_step; [apply alike_IsRegistered|].
  intros [|]; [|by apply alike_ret]. simpl.
  eapply alike_bind; [apply alike_List|]. intros r ? [<- Hr].
  destruct r as [items|e].
  - destruct (Hr items eq_refl) as [Hne Hpairs].
    eapply alike_bind.
    { apply (alike_Intn (Z.of_nat (length items))). destruct items; simpl; [done|lia]. }
    intros idx ? [<- Hidx].
    eapply alike_bind; [by apply alike_index|]. intros item ? [<- Hin].
    apply alike_ret. split; [done|]. intros ? [= <-].
    by eapply Forall_forall in Hpairs.
  - eapply alike_bind; [apply alike_Printf|]. intros _ _ _. by apply alike_ret.
Qed.

(** The senders. *)
Lemma alike_replying {A} (m : M A) (msg : A → MessageConfig) what :
  alike eq m m →
  alike (λ _ _, True) (do a <- m; do err <- Send (msg a); logSendError what err)
    (do a <- m; do err <- Send (msg a); logSendError what err).
Proof. intros Hm. apply alike_step; [done|]. intros a. apply alike_reply. Qed.

Lemma alike_sendPairs chatID words :
  Forall (λ p, length p = 2%nat) words →
  alike (λ _ _, True) (sendPairs chatID words) (sendPairs chatID words).
Proof.
  induction 1 as [|pairs words Hlen _ IH]; simpl; [by apply alike_ret|].
  destruct pairs as [|word [|translation [|? ?]]]; try done.
  eapply alike_bind; [by apply alike_index|]. intros ? ? [<- _].
  eapply alike_bind; [by apply alike_index|]. intros ? ? [<- _].
  eapply alike_bind; [apply alike_Send|]. intros ? ? _.
  eapply alike_bind; [apply alike_logSendError|]. intros _ _ _. apply IH.
Qed.

Lemma alike_listWords chatID :
  alike (λ _ _, True) (listWords chatID) (listWords chatID).
Proof.
  eapply alike_bind; [apply alike_List|]. intros r ? [<- Hr].
  destruct r as [items|e]; [|apply alike_reply].
  apply alike_sendPairs. by apply Hr.
Qed.

Lemma alike_random_case chatID :
  alike (λ _ _, True)
    (do words <- randomWord chatID;
     match words with
     | Some words => do w1 <- index words 1; storeRandomWord chatID w1
     | None => ret ()
     end)
    (do words <- randomWord chatID;
     match words with
     | Some words => do w1 <- index words 1; storeRandomWord chatID w1
     | None => ret ()
     end).
Proof.
  eapply alike_bind
    with (P := λ o1 o2, o1 = o2 ∧ ∀ words, o1 = Some words → length words = 2%nat).
  - unfold randomWord.
    eapply alike_bind; [apply alike_Random|]. intros r ? [<- Hr].
    eapply alike_bind
      with (P := λ p1 p2, p1 = p2 ∧ ∀ words, p1.2 = Some words → length words = 2%nat).
    + destruct r as [words|e]; [|by apply alike_ret].
      specialize (Hr words eq_refl).
      destruct words as [|word [|translation [|? ?]]]; try done.
      eapply alike_bind; [by apply alike_index|]. intros ? ? [<- _].
      apply alike_ret. split; [done|]. by intros ? [= <-].
    + intros [msg words] ? [<- Hwords]. simpl in *.
      eapply alike_bind; [apply alike_Send|]. intros ? ? _.
      eapply alike_bind; [apply alike_logSendError|]. intros _ _ _.
      by apply alike_ret.
  - intros [words|] ? [<- Hwords]; [|by apply alike_ret].
    specialize (Hwords words eq_refl).
    destruct words as [|word [|translation [|? ?]]]; try done.
    eapply alike_bind; [by apply alike_index|]. intros ? ? [<- _].
    intros [t1 k1 q1 s1 l1 c1 e1 d1] [t2 k2 q2 s2 l2 c2 e2 d2]
      (? & ? & ? & ? & ? & ?); simpl in *; subst.
    by eexists _, _, _, _.
Qed.

Lemma alike_answerRandomWord ToLower chatID message :
  alike (λ _ _, True) (answerRandomWord ToLower chatID message)
    (answerRandomWord ToLower chatID message).
Proof.
  apply alike_step.
  - intros [t1 k1 q1 s1 l1 c1 e1 d1] [t2 k2 q2 s2 l2 c2 e2 d2]
      (? & ? & ? & ? & ? & ?); simpl in *; subst.
    by eexists _, _, _, _.
  - intros [answer|]; [|apply alike_Printf].
    eapply alike_bind; [apply alike_Send|]. intros ? ? _.
    eapply alike_bind; [apply alike_logSendError|]. intros _ _ _.
    intros [t1 k1 q1 s1 l1 c1 e1 d1] [t2 k2 q2 s2 l2 c2 e2 d2]
      (? & ? & ? & ? & ? & ?); simpl in *; subst.
    by eexists _, _, _, _.
Qed.

Lemma alike_add_case chatID arg :
  ¬ (strings.len arg = 0 ∨ strings.Index arg " " = -1) →
  alike (λ _ _, True)
    (let splitted := strings.SplitN arg " " 2 in
     do word <- index splitted 0;
     do translation <- index splitted 1;
     addWord chatID word translation)
    (let splitted := strings.SplitN arg " " 2 in
     do word <- index splitted 0;
     do translation <- index splitted 1;
     addWord chatID word translation).
Proof.
  intros H.
  assert (∃ i, strings.find arg " " = Some i) as [i Hi].
  { unfold strings.Index in H. destruct (strings.find arg " "); [by eexists|].
    exfalso. apply H. by right. }
  simpl. rewrite (SplitN_first_space _ _ Hi).
  eapply alike_bind; [by apply alike_index|]. intros ? ? [<- _].
  eapply alike_bind; [by apply alike_index|]. intros ? ? [<- _].
  apply alike_replying, alike_Add.
Qed.

Lemma alike_switchMessage ToLower chatID message arg :
  alike (λ _ _, True) (switchMessage ToLower chatID message arg)
    (switchMessage ToLower chatID message arg).
Proof.
  unfold switchMessage.
  destruct (decide (message = "/start" ∨ message = "/register"));
    [apply alike_replying, alike_Register|].
  destruct (decide (message = "/stop" ∨ message = "/unregister"));
    [apply alike_replying, alike_Unregister|].
  destruct (decide (message = "/add")).
  { destruct (decide (strings.len arg = 0 ∨ strings.Index arg " " = -1));
      [apply alike_reply|by apply alike_add_case]. }
  destruct (decide (message = "/search")).
  { destruct (decide (strings.len arg = 0));
      [apply alike_reply|apply alike_replying, alike_Search]. }
  destruct (decide (message = "/random")); [apply alike_random_case|].
  destruct (decide (message = "/delete")).
  { destruct (decide (strings.len arg = 0));
      [apply alike_reply|apply alike_replying, alike_Delete]. }
  destruct (decide (message = "/list")); [apply alike_listWords|].
  destruct (decide (message = "/clear")); [apply alike_replying, alike_Clear|].
  apply alike_answerRandomWord.
Qed.

Lemma alike_handleUpdate ToLower update :
  alike (λ _ _, True) (handleUpdate ToLower update) (handleUpdate ToLower update).
Proof.
  destruct update as [[m|]]; [|by apply alike_ret].
  unfold handleUpdate. simpl.
  eapply alike_bind; [apply alike_Printf|]. intros _ _ _.
  apply alike_step.
  - intros w1 w2 Hw. rewrite !splitMessage_spec. by eexists _, _, _, _.
  - intros [message arg]. apply alike_switchMessage.
Qed.

End SendFailures.

(** X21. A failed [Send] is only logged. Two runs of the loop over the same
    updates, from states that differ at most in the log and in what the
    transport answers, both return, in states that again differ at most in
    those: the buckets, the pending words and what was sent are the same. *)
Theorem send_failures_only_logged
    (ToLower : string → string) (updates : list Update) (w1 w2 : World) :
  sameButLog w1 w2 →
  ∃ w1' w2',
    serve ToLower updates w1 = Done ((), w1')
    ∧ serve ToLower updates w2 = Done ((), w2')
    ∧ sameButLog w1' w2'.
Proof.
  revert w1 w2. induction updates as [|update updates IH]; intros w1 w2 Hw; simpl.
  - by exists w1, w2.
  - destruct (alike_handleUpdate ToLower update w1 w2 Hw)
      as ([] & [] & w1' & w2' & E1 & E2 & Hw' & _).
    unfold bind. rewrite E1, E2. by apply IH.
Qed.

Lemma send_failures_only_logged_witness :
  ∃ w1' w2',
    serve lowerASCII [says (newChat "u" 7) "apple"] failingTransport = Done ((), w1')
    ∧ serve lowerASCII [says (newChat "u" 7) "apple"] asked7 = Done ((), w2')
    ∧ sameButLog w1' w2'.
Proof.
  apply (send_failures_only_logged lowerASCII [says (newChat "u" 7) "apple"]
           failingTransport asked7).
  repeat split.
Defined.
